(** * TurboSolid: the reactive resource binding of [src/resource.ts]

    A shallow embedding of [createTurboResource]: the key memo, the
    transition resolution, the loader handed to the host resource
    primitive, the action surface (mutate, refetch, forget, abort,
    unsubscribe), the subscription effect that is rebuilt on every key
    change, the throttled focus trigger and the polling signals of
    [createStale].

    Conventions of the embedding.
    - Times are [Date.getTime()] readings in milliseconds, as [Z].
    - Promises, cached values, errors and caller functions are opaque:
      they are named by a number, and [settle] tells how a promise ends.
    - Calls into the cache (turbo-query) and into the host runtime
      (solid-js) are embedded by their TypeScript signatures: they return,
      and every call is recorded in a trace of [Op]s.  Exceptions are
      modelled where the source handles or propagates them: the key
      accessor inside [keyMemo] and the awaited promise of [localRefetch].
    - The [turbo] option only selects which cache instance receives the
      calls; the trace records the calls made on the selected instance. *)

From stdpp Require Import gmap strings list.
From Stdlib Require Import ZArith Lia.

Local Open Scope Z_scope.

(** ** Values of the JavaScript side *)

Definition Promise := nat.
Definition Value := nat.
Definition Err := nat.
Definition FnId := nat.

(** [string | false | null | undefined] *)
Inductive TurboSolidKeyType :=
| KString (s : string)
| KFalse
| KNull
| KUndefined.

Global Instance TurboSolidKeyType_eq_dec : EqDecision TurboSolidKeyType.
Proof. solve_decision. Defined.

(** JavaScript's [!key]: every non-string key and the empty string. *)
Definition falsy (k : TurboSolidKeyType) : bool :=
  match k with
  | KString EmptyString => true
  | KString _ => false
  | _ => true
  end.

Definition is_string (k : TurboSolidKeyType) : bool :=
  match k with KString _ => true | _ => false end.

(** The string a guard [if (!key) return] lets through. *)
Definition active (k : TurboSolidKeyType) : option string :=
  match k with
  | KString EmptyString => None
  | KString s => Some s
  | _ => None
  end.

(** How one evaluation of the key accessor ends. *)
Inductive Call (A : Type) :=
| Returned (a : A)
| Threw (e : Err).
Global Arguments Returned {A} a.
Global Arguments Threw {A} e.

(** How a computation of this layer completes: with a value, with an
    exception, or (an [await] on a promise that never settles) not at
    all. *)
Inductive Outcome (A : Type) :=
| Returns (a : A)
| Throws (e : Err)
| Hangs.
Global Arguments Returns {A} a.
Global Arguments Throws {A} e.
Global Arguments Hangs {A}.

(** The state of a promise once the event loop is done with it;
    [Fulfilled None] is a promise for [undefined]. *)
Inductive PromiseState :=
| Pending
| Fulfilled (v : option Value)
| Rejected (e : Err).

(** ** Options *)

(** A value of an entry of [TurboQueryOptions]. *)
Inductive QVal :=
| QUndefined
| QBool (b : bool)
| QNum (z : Z)
| QFun (f : FnId).

(** A transition function: the host's [startTransition] or one the caller
    wrote. *)
Inductive TransitionFn :=
| startTransition
| callerTransition (f : FnId).

(** [boolean | ((fn: () => void) => Promise<void>)] *)
Inductive TransitionOption :=
| TBoolean (b : bool)
| TFunction (f : TransitionFn).

(** [TurboSolidResourceOptions].  An absent (or [undefined]) field is
    [None]; [queryOptions] holds the entries inherited from
    [TurboQueryOptions] ([stale], [fetcher], [expiration], ...), which
    are the ones the cache reads from the object given to [query]. *)
Module Options.
Record t := mk {
  transition : option TransitionOption;
  refetchOnFocus : option bool;
  refetchOnConnect : option bool;
  focusInterval : option Z;
  queryOptions : gmap string QVal;
}.
End Options.

(** [a ?? b] *)
Definition nullish {A} (a b : option A) : option A :=
  match a with Some x => Some x | None => b end.
Infix "??" := nullish (at level 61, left associativity).

(** [o?.field] *)
Definition opt_field {A} (o : option Options.t) (f : Options.t -> option A)
  : option A :=
  match o with Some r => f r | None => None end.

(** [{ stale: s, ...contextOptions, ...options }]: a later entry wins
    (stdpp's union keeps the left operand's entry). *)
Definition spread_entries (o : option Options.t) : gmap string QVal :=
  match o with Some r => Options.queryOptions r | None => ∅ end.

Definition spread (s : bool) (contextOptions options : option Options.t)
  : gmap string QVal :=
  spread_entries options ∪ (spread_entries contextOptions
                            ∪ {[ "stale"%string := QBool s ]}).

(** ** The transition adapter *)

(** [getTransition], lines 171-181. *)
Definition getTransition (t : option TransitionOption) : option TransitionFn :=
  match t with
  | None => Some startTransition
  | Some (TBoolean b) => if b then Some startTransition else None
  | Some (TFunction f) => Some f
  end.

(** ** The key memo *)

(** The function given to [createMemo], lines 186-192: the accessor's
    outcome, with an exception turned into [null]. *)
Definition keyMemo (key : Call TurboSolidKeyType) : TurboSolidKeyType :=
  match key with
  | Returned k => k
  | Threw _ => KNull
  end.

(** ** Calls made on the collaborators *)

Inductive CacheEvent := mutated | refetching | resolved | error.
Inductive WindowEvent := focus | online.

Global Instance CacheEvent_eq_dec : EqDecision CacheEvent.
Proof. solve_decision. Defined.
Global Instance WindowEvent_eq_dec : EqDecision WindowEvent.
Proof. solve_decision. Defined.

(** The closure returned by [subscribe], [onFocus] or [onConnect]. *)
Inductive Unsub :=
| UnsubCache (id : nat)
| UnsubWindow (id : nat)
| UnsubNoop.

(** What reaches the resource cell: [actions.refetch(promise)] or
    [actions.mutate(() => item)]. *)
Inductive Commit :=
| CellRefetch (p : Promise)
| CellMutate (item : Value).

Inductive Op :=
| OpQuery (k : string) (o : gmap string QVal) (p : Promise)
| OpMutate (k : string) (v : Value)
| OpSubscribe (k : string) (ev : CacheEvent) (id : nat)
| OpForget (k : string)
| OpAbort (k : string) (reason : option Value)
| OpExpiration (k : string)
| OpUnsubscribe (u : Unsub)
| OpAddEventListener (ev : WindowEvent) (id : nat)
| OpDirect (c : Commit)
| OpViaTransition (f : TransitionFn) (c : Commit).

(** The operations of the cache contract: [query], [mutate], [subscribe],
    [forget], [abort], [expiration]. *)
Definition is_cache_op (o : Op) : bool :=
  match o with
  | OpQuery _ _ _ | OpMutate _ _ | OpSubscribe _ _ _
  | OpForget _ | OpAbort _ _ | OpExpiration _ => true
  | _ => false
  end.

Definition is_subscribe (o : Op) : bool :=
  match o with
  | OpSubscribe _ _ _ | OpAddEventListener _ _ => true
  | _ => false
  end.

Definition is_unsubscribe (o : Op) : bool :=
  match o with OpUnsubscribe _ => true | _ => false end.

(** ** The instance: the closure state of one [createTurboResource] call *)

(** The six [let unsubscribe... = undefined] variables, lines 241-246. *)
Inductive Var :=
| unsubscribeMutations
| unsubscribeRefetching
| unsubscribeFocusRefetch
| unsubscribeConnectRefetch
| unsubscribeResolved
| unsubscribeErrors.

Global Instance Var_eq_dec : EqDecision Var.
Proof. solve_decision. Defined.

(** A listener registered with the cache or with [window].  [boundKey]
    is not read by the code: it remembers the key whose effect run
    registered the listener. *)
Inductive Target :=
| OnCache (k : string) (ev : CacheEvent)
| OnWindow (ev : WindowEvent).

Global Instance Target_eq_dec : EqDecision Target.
Proof. solve_decision. Defined.

Record Listener := mkListener {
  lid : nat;
  target : Target;
  boundKey : string;
}.

Record Instance := mkInstance {
  memo : TurboSolidKeyType;        (* keyMemo() *)
  isRefetching : bool;             (* the isRefetching signal *)
  lastFocus : Z;                   (* the lastFocus signal *)
  loading : bool;                  (* item.loading, owned by the host *)
  vars : Var -> option Unsub;      (* the six unsubscribe variables *)
  cleanup : bool;                  (* the last effect run called onCleanup *)
  live : list Listener;            (* registered with the cache and window *)
  next : nat;                      (* names not yet given out *)
}.

Definition set_memo (k : TurboSolidKeyType) (s : Instance) : Instance :=
  mkInstance k (isRefetching s) (lastFocus s) (loading s) (vars s)
             (cleanup s) (live s) (next s).
Definition setIsRefetching (b : bool) (s : Instance) : Instance :=
  mkInstance (memo s) b (lastFocus s) (loading s) (vars s)
             (cleanup s) (live s) (next s).
Definition setLastFocus (d : Z) (s : Instance) : Instance :=
  mkInstance (memo s) (isRefetching s) d (loading s) (vars s)
             (cleanup s) (live s) (next s).
Definition set_loading (b : bool) (s : Instance) : Instance :=
  mkInstance (memo s) (isRefetching s) (lastFocus s) b (vars s)
             (cleanup s) (live s) (next s).
Definition set_var (x : Var) (u : Unsub) (s : Instance) : Instance :=
  mkInstance (memo s) (isRefetching s) (lastFocus s) (loading s)
             (fun y => if decide (y = x) then Some u else vars s y)
             (cleanup s) (live s) (next s).
Definition set_cleanup (b : bool) (s : Instance) : Instance :=
  mkInstance (memo s) (isRefetching s) (lastFocus s) (loading s) (vars s)
             b (live s) (next s).
Definition set_live (l : list Listener) (s : Instance) : Instance :=
  mkInstance (memo s) (isRefetching s) (lastFocus s) (loading s) (vars s)
             (cleanup s) l (next s).
Definition set_next (n : nat) (s : Instance) : Instance :=
  mkInstance (memo s) (isRefetching s) (lastFocus s) (loading s) (vars s)
             (cleanup s) (live s) n.

(** ** State, trace and exceptions *)

Definition M (A : Type) : Type := Instance -> Outcome A * Instance * list Op.

Definition ret {A} (a : A) : M A := fun s => (Returns a, s, []).

Definition bind {A B} (m : M A) (f : A -> M B) : M B := fun s =>
  match m s with
  | (Returns a, s1, t1) =>
      match f a s1 with (r, s2, t2) => (r, s2, t1 ++ t2) end
  | (Throws e, s1, t1) => (Throws e, s1, t1)
  | (Hangs, s1, t1) => (Hangs, s1, t1)
  end.

Notation "x <- m ;; k" := (bind m (fun x => k))
  (at level 100, m at next level, right associativity,
   format "x  <-  m  ;;  '/' k").
Notation "m ;;; k" := (bind m (fun _ => k))
  (at level 100, right associativity, format "m  ;;;  '/' k").

Definition read {A} (f : Instance -> A) : M A := fun s => (Returns (f s), s, []).
Definition modify (f : Instance -> Instance) : M unit :=
  fun s => (Returns tt, f s, []).
Definition emit (o : Op) : M unit := fun s => (Returns tt, s, [o]).
Definition fresh : M nat :=
  fun s => (Returns (next s), set_next (S (next s)) s, []).

Fixpoint forEach {A} (l : list A) (f : A -> M unit) : M unit :=
  match l with
  | [] => ret tt
  | x :: l' => f x ;;; forEach l' f
  end.

Definition state_of {A} (r : Outcome A * Instance * list Op) : Instance :=
  snd (fst r).
Definition trace_of {A} (r : Outcome A * Instance * list Op) : list Op :=
  snd r.
Definition result_of {A} (r : Outcome A * Instance * list Op) : Outcome A :=
  fst (fst r).

(** ** The closures of [createTurboResource] *)

(** The [refetching] entry of the info object the host gives the loader. *)
Inductive Refetching :=
| RBoolean (b : bool)
| RPromise (p : Promise)
| RValue (v : Value).

(** The payload the cache dispatches with an event. *)
Inductive Dispatch :=
| DMutated (item : Value)
| DRefetching (p : Promise)
| DResolved
| DError.

Definition event_of (d : Dispatch) : CacheEvent :=
  match d with
  | DMutated _ => mutated
  | DRefetching _ => refetching
  | DResolved => resolved
  | DError => error
  end.

Section createTurboResource.

(** [options], the value of [useContext(TurboContext)], whether
    [typeof window !== 'undefined'], and the fate of every promise. *)
Variable options : option Options.t.
Variable contextOptions : option Options.t.
Variable hasWindow : bool.
Variable settle : Promise -> PromiseState.

(** Lines 201-204. *)
Definition transition : option TransitionFn :=
  getTransition (opt_field options Options.transition
                 ?? opt_field contextOptions Options.transition).
Definition refetchOnFocus : bool :=
  default true (opt_field options Options.refetchOnFocus
                ?? opt_field contextOptions Options.refetchOnFocus).
Definition refetchOnConnect : bool :=
  default true (opt_field options Options.refetchOnConnect
                ?? opt_field contextOptions Options.refetchOnConnect).
Definition focusInterval : Z :=
  default 5000 (opt_field options Options.focusInterval
                ?? opt_field contextOptions Options.focusInterval).

(** *** The cache contract *)

Definition query (k : string) (o : gmap string QVal) : M Promise :=
  p <- fresh ;; emit (OpQuery k o p) ;;; ret p.
Definition mutate (k : string) (v : Value) : M unit := emit (OpMutate k v).
Definition forget (k : string) : M unit := emit (OpForget k).
Definition abort (k : string) (reason : option Value) : M unit :=
  emit (OpAbort k reason).
Definition subscribe (k : string) (ev : CacheEvent) : M Unsub :=
  id <- fresh ;;
  emit (OpSubscribe k ev id) ;;;
  modify (fun s => set_live (live s ++ [mkListener id (OnCache k ev) k]) s) ;;;
  ret (UnsubCache id).

(** Calling a closure returned by [subscribe], [onFocus] or [onConnect]:
    the listener it names is removed; a second call finds nothing. *)
Definition remove_listener (id : nat) (s : Instance) : Instance :=
  set_live (filter (fun l => lid l ≠ id) (live s)) s.
Definition callUnsub (u : Unsub) : M unit :=
  emit (OpUnsubscribe u) ;;;
  match u with
  | UnsubCache id | UnsubWindow id => modify (remove_listener id)
  | UnsubNoop => ret tt
  end.

(** *** The transition adapter at work *)

(** [if (transition) transition(() => commit) else commit], as written
    at lines 236-237, 393-394 and 403-404. *)
Definition through_transition (c : Commit) : M unit :=
  match transition with
  | Some f => emit (OpViaTransition f c)
  | None => emit (OpDirect c)
  end.

(** *** The loader, lines 211-215 *)

Definition loader (k : string) (r : Refetching) : M Promise :=
  match r with
  | RPromise p => ret p
  | _ => query k (spread true contextOptions options)
  end.

(** The host's resource primitive runs the loader when the source
    changes, unless the source is [false], [null] or [undefined]. *)
Definition resource_load (k : TurboSolidKeyType) : M unit :=
  match k with
  | KString s => _ <- loader s (RBoolean false) ;; ret tt
  | _ => ret tt
  end.

(** *** The actions *)

(** Lines 221-225. *)
Definition localMutate (value : Value) : M unit :=
  key <- read memo ;;
  match active key with
  | None => ret tt
  | Some k => mutate k value
  end.

(** An [async] function: its promise is fulfilled with the returned
    value, rejected with the thrown one. *)
Definition async (m : M (option Value)) : M PromiseState := fun s =>
  match m s with
  | (Returns v, s', t) => (Returns (Fulfilled v), s', t)
  | (Throws e, s', t) => (Returns (Rejected e), s', t)
  | (Hangs, s', t) => (Returns Pending, s', t)
  end.

Definition await (p : Promise) : M (option Value) := fun s =>
  (match settle p with
   | Fulfilled v => Returns v
   | Rejected e => Throws e
   | Pending => Hangs
   end, s, []).

(** Lines 232-239. *)
Definition localRefetch : M PromiseState :=
  async (
    key <- read memo ;;
    match active key with
    | None => ret None
    | Some k =>
        promise <- query k (spread false contextOptions options) ;;
        through_transition (CellRefetch promise) ;;;
        await promise
    end).

(** Lines 448-452. *)
Definition localForget : M unit :=
  key <- read memo ;;
  match active key with
  | None => ret tt
  | Some k => forget k
  end.

(** Lines 457-461. *)
Definition localAbort (reason : option Value) : M unit :=
  key <- read memo ;;
  match active key with
  | None => ret tt
  | Some k => abort k reason
  end.

(** [unsubscribeX?.()] *)
Definition callVar (x : Var) : M unit :=
  u <- read (fun s => vars s x) ;;
  match u with
  | Some u => callUnsub u
  | None => ret tt
  end.

(** Lines 253-260. *)
Definition localUnsubscribe : M unit :=
  callVar unsubscribeMutations ;;;
  callVar unsubscribeRefetching ;;;
  callVar unsubscribeFocusRefetch ;;;
  callVar unsubscribeConnectRefetch ;;;
  callVar unsubscribeResolved ;;;
  callVar unsubscribeErrors.

(** *** The environmental triggers *)

(** [rawHandler], lines 269-277; [now] and [now'] are the two clock
    readings [new Date()] of lines 271 and 274. *)
Definition rawHandler (listener : M unit) (now now' : Z) : M unit :=
  last <- read lastFocus ;;
  if bool_decide (focusInterval < now - last)
  then modify (setLastFocus now') ;;; listener
  else ret tt.

(** Lines 267-282. *)
Definition onFocus (k : string) : M Unsub :=
  if refetchOnFocus && hasWindow then
    id <- fresh ;;
    emit (OpAddEventListener focus id) ;;;
    modify (fun s => set_live (live s ++ [mkListener id (OnWindow focus) k]) s) ;;;
    ret (UnsubWindow id)
  else ret UnsubNoop.

(** Lines 287-293. *)
Definition onConnect (k : string) : M Unsub :=
  if refetchOnConnect && hasWindow then
    id <- fresh ;;
    emit (OpAddEventListener online id) ;;;
    modify (fun s => set_live (live s ++ [mkListener id (OnWindow online) k]) s) ;;;
    ret (UnsubWindow id)
  else ret UnsubNoop.

(** The listener given to [onFocus] and [onConnect], lines 425-434. *)
Definition refetchListener : M unit := _ <- localRefetch ;; ret tt.

(** *** The subscription effect, lines 383-443 *)

(** The handlers given to [subscribe]. *)
Definition handler (d : Dispatch) : M unit :=
  match d with
  | DMutated item => through_transition (CellMutate item)
  | DRefetching promise =>
      modify (setIsRefetching true) ;;;
      l <- read loading ;;
      if l then ret tt else through_transition (CellRefetch promise)
  | DResolved => modify (setIsRefetching false)
  | DError => modify (setIsRefetching false)
  end.

Definition assign (x : Var) (m : M Unsub) : M unit :=
  u <- m ;; modify (set_var x u).

Definition subscriptionEffect : M unit :=
  modify (setIsRefetching false) ;;;
  key <- read memo ;;
  match active key with
  | None => ret tt
  | Some k =>
      assign unsubscribeMutations (subscribe k mutated) ;;;
      assign unsubscribeRefetching (subscribe k refetching) ;;;
      assign unsubscribeResolved (subscribe k resolved) ;;;
      assign unsubscribeErrors (subscribe k error) ;;;
      assign unsubscribeFocusRefetch (onFocus k) ;;;
      assign unsubscribeConnectRefetch (onConnect k) ;;;
      modify (set_cleanup true)
  end.

(** What the host does before it runs the effect again: the cleanup the
    previous run registered, if it registered one. *)
Definition runCleanup : M unit :=
  c <- read cleanup ;;
  modify (set_cleanup false) ;;;
  if c then localUnsubscribe else ret tt.

(** *** The events an instance reacts to *)

Inductive Event :=
| EvKey (key : Call TurboSolidKeyType)  (* a dependency of the accessor changed *)
| EvCache (k : string) (d : Dispatch)   (* the cache dispatches an event of key k *)
| EvFocus (now now' : Z)                (* window 'focus' *)
| EvOnline                              (* window 'online' *)
| EvLoading (b : bool)                  (* the host flips item.loading *)
| EvMutate (value : Value)
| EvRefetch
| EvForget
| EvAbort (reason : option Value)
| EvUnsubscribe.

(** The memo notifies its observers only when its value changes; then
    the resource reloads and the effect is cleaned up and run again. *)
Definition keyChanged (key : Call TurboSolidKeyType) : M unit :=
  old <- read memo ;;
  if decide (keyMemo key = old) then ret tt
  else
    modify (set_memo (keyMemo key)) ;;;
    resource_load (keyMemo key) ;;;
    runCleanup ;;;
    subscriptionEffect.

Definition listens (t : Target) (l : Listener) : bool :=
  bool_decide (target l = t).

Definition dispatch (k : string) (d : Dispatch) : M unit :=
  ls <- read live ;;
  forEach (filter (fun l => listens (OnCache k (event_of d)) l) ls)
          (fun _ => handler d).

Definition windowFocus (now now' : Z) : M unit :=
  ls <- read live ;;
  forEach (filter (fun l => listens (OnWindow focus) l) ls)
          (fun _ => rawHandler refetchListener now now').

Definition windowOnline : M unit :=
  ls <- read live ;;
  forEach (filter (fun l => listens (OnWindow online) l) ls)
          (fun _ => refetchListener).

Definition handle (e : Event) : M unit :=
  match e with
  | EvKey key => keyChanged key
  | EvCache k d => dispatch k d
  | EvFocus now now' => windowFocus now now'
  | EvOnline => windowOnline
  | EvLoading b => modify (set_loading b)
  | EvMutate value => localMutate value
  | EvRefetch => _ <- localRefetch ;; ret tt
  | EvForget => localForget
  | EvAbort reason => localAbort reason
  | EvUnsubscribe => localUnsubscribe
  end.

(** The instance as [createTurboResource] leaves it once the host has
    run the resource and the effect for the first time; [now] is the
    clock reading of line 262. *)
Definition initial (now : Z) (key : Call TurboSolidKeyType) : Instance :=
  mkInstance (keyMemo key) false now false (fun _ => None) false [] 0%nat.

Definition mount : M unit :=
  k <- read memo ;; resource_load k ;;; subscriptionEffect.

Definition createTurboResource (now : Z) (key : Call TurboSolidKeyType)
  : Outcome unit * Instance * list Op :=
  mount (initial now key).

Inductive reachable : Instance -> Prop :=
| reachable_created now key :
    reachable (state_of (createTurboResource now key))
| reachable_step s e :
    reachable s -> reachable (state_of (handle e s)).

End createTurboResource.

(** The listeners one run of the effect registers for key [k] when the
    first free name is [n]. *)
Definition subscriptionSet (options contextOptions : option Options.t)
    (hasWindow : bool) (k : string) (n : nat) : list Listener :=
  [ mkListener n (OnCache k mutated) k;
    mkListener (S n) (OnCache k refetching) k;
    mkListener (S (S n)) (OnCache k resolved) k;
    mkListener (S (S (S n))) (OnCache k error) k ]
  ++ (if refetchOnFocus options contextOptions && hasWindow
      then [ mkListener (S (S (S (S n)))) (OnWindow focus) k ] else [])
  ++ (if refetchOnConnect options contextOptions && hasWindow
      then [ mkListener
               (if refetchOnFocus options contextOptions && hasWindow
                then S (S (S (S (S n)))) else S (S (S (S n))))
               (OnWindow online) k ]
      else []).

(** The refetches a trace holds: each one is a [query] of the cache. *)
Definition is_query (o : Op) : bool :=
  match o with OpQuery _ _ _ => true | _ => false end.
Definition refetches (t : list Op) : nat := length (filter (fun o => is_query o) t).

(** ** The polling signals of [createStale], lines 340-381 *)

Record StaleSignals := mkStale {
  isStale : bool;
  staleIn : Z;
}.

Definition setIsStale (b : bool) (s : StaleSignals) : StaleSignals :=
  mkStale b (staleIn s).
Definition setStaleIn (z : Z) (s : StaleSignals) : StaleSignals :=
  mkStale (isStale s) z.

(** The initial snapshot, lines 341-357.  [expiration] is the cache's
    answer at that moment, [now] the clock reading of line 341. *)
Definition initialStale (expiration : string -> option Z) (now : Z)
    (initialKey : TurboSolidKeyType) : StaleSignals * list Op :=
  match active initialKey with
  | None => (mkStale true 0, [])
  | Some k =>
      match expiration k with
      | Some expiresAt =>
          let expirationIn := expiresAt - now in
          (mkStale (bool_decide (expiresAt < now))
                   (if bool_decide (0 <= expirationIn) then expirationIn else 0),
           [OpExpiration k])
      | None => (mkStale true 0, [OpExpiration k])
      end
  end.

(** One run of the interval callback, lines 362-372, for the key the
    effect captured; [now] is the clock reading of line 366. *)
Definition staleTick (expiration : string -> option Z) (now : Z)
    (key : TurboSolidKeyType) (s : StaleSignals) : StaleSignals * list Op :=
  match active key with
  | None => (s, [])
  | Some k =>
      match expiration k with
      | Some expiresAt =>
          let expirationIn := expiresAt - now in
          let s1 :=
            if bool_decide (0 <= expirationIn) then setStaleIn expirationIn s
            else if bool_decide (expirationIn < 0) && bool_decide (0 < staleIn s)
                 then setStaleIn 0 s
                 else s in
          (setIsStale (bool_decide (expiresAt < now)) s1, [OpExpiration k])
      | None => (s, [OpExpiration k])
      end
  end.

(** The signal states [createStale] can be in: the initial snapshot, then
    any number of ticks, for whatever key the effect holds at the time. *)
Inductive staleReachable : StaleSignals -> Prop :=
| stale_created expiration now initialKey :
    staleReachable (fst (initialStale expiration now initialKey))
| stale_ticked expiration now key s :
    staleReachable s -> staleReachable (fst (staleTick expiration now key s)).

(** ** Auxiliary definitions used by the statements *)

(** Options that only set [transition]. *)
Definition onlyTransition (t : option TransitionOption) : option Options.t :=
  Some (Options.mk t None None None ∅).

(** The state and the trace one [unsubscribeX?.()] leaves. *)
Definition afterVar (x : Var) (s : Instance) : Instance :=
  match vars s x with
  | Some (UnsubCache id) | Some (UnsubWindow id) => remove_listener id s
  | _ => s
  end.
Definition traceVar (x : Var) (s : Instance) : list Op :=
  match vars s x with
  | Some u => [OpUnsubscribe u]
  | None => []
  end.

Definition teardownOrder : list Var :=
  [ unsubscribeMutations; unsubscribeRefetching; unsubscribeFocusRefetch;
    unsubscribeConnectRefetch; unsubscribeResolved; unsubscribeErrors ].

(** The handle each variable holds after a run of the effect that started
    with [n] as the first free name. *)
Definition handleOf (options contextOptions : option Options.t)
    (hasWindow : bool) (n : nat) (x : Var) : Unsub :=
  match x with
  | unsubscribeMutations => UnsubCache n
  | unsubscribeRefetching => UnsubCache (S n)
  | unsubscribeResolved => UnsubCache (S (S n))
  | unsubscribeErrors => UnsubCache (S (S (S n)))
  | unsubscribeFocusRefetch =>
      if refetchOnFocus options contextOptions && hasWindow
      then UnsubWindow (S (S (S (S n)))) else UnsubNoop
  | unsubscribeConnectRefetch =>
      if refetchOnConnect options contextOptions && hasWindow
      then UnsubWindow (if refetchOnFocus options contextOptions && hasWindow
                        then S (S (S (S (S n)))) else S (S (S (S n))))
      else UnsubNoop
  end.

(** The calls one run of the effect makes, in order. *)
Definition setupTrace (options contextOptions : option Options.t)
    (hasWindow : bool) (k : string) (n : nat) : list Op :=
  [ OpSubscribe k mutated n;
    OpSubscribe k refetching (S n);
    OpSubscribe k resolved (S (S n));
    OpSubscribe k error (S (S (S n))) ]
  ++ (if refetchOnFocus options contextOptions && hasWindow
      then [ OpAddEventListener focus (S (S (S (S n)))) ] else [])
  ++ (if refetchOnConnect options contextOptions && hasWindow
      then [ OpAddEventListener online
               (if refetchOnFocus options contextOptions && hasWindow
                then S (S (S (S (S n)))) else S (S (S (S n)))) ]
      else []).

(** Every registered listener is held by one of the six variables, and a
    cleanup is pending for it. *)
Definition owned (s : Instance) : Prop :=
  forall l, l ∈ live s ->
    cleanup s = true /\
    exists x, vars s x = Some (UnsubCache (lid l))
              \/ vars s x = Some (UnsubWindow (lid l)).

(** At most one subscription set is registered, and it is the set of the
    current key. *)
Definition oneSet (options contextOptions : option Options.t)
    (hasWindow : bool) (s : Instance) : Prop :=
  live s = [] \/
  exists k n, active (memo s) = Some k /\
              live s = subscriptionSet options contextOptions hasWindow k n.

(** An event that leaves the binding alone: the key, the six variables,
    the pending cleanup and the registered listeners. *)
Definition sameBinding (s s' : Instance) : Prop :=
  memo s' = memo s /\ vars s' = vars s /\ cleanup s' = cleanup s /\
  live s' = live s.

(** The call a commit turns into, through the resolved transition. *)
Definition commitOp (options contextOptions : option Options.t) (c : Commit)
  : Op :=
  match transition options contextOptions with
  | Some f => OpViaTransition f c
  | None => OpDirect c
  end.

(** A run of events, one after the other. *)
Definition handleAll (options contextOptions : option Options.t)
    (hasWindow : bool) (settle : Promise -> PromiseState) (es : list Event)
  : M unit :=
  forEach es (handle options contextOptions hasWindow settle).

(** Options that only set an entry of [TurboQueryOptions]. *)
Definition onlyStale (b : bool) : option Options.t :=
  Some (Options.mk None None None None {[ "stale"%string := QBool b ]}).

(** A fate for every promise: rejected with [e]. *)
Definition rejecting (e : Err) : Promise -> PromiseState :=
  fun _ => Rejected e.

(** An instance created at time [0] for the key ["A"], with no options,
    no context and a window. *)
Definition boundA : Instance :=
  state_of (createTurboResource None None true 0
                                (Returned (KString "A"))).

(** The instance after one [unsubscribeX = subscribe(...)]: the listener
    is registered under the next free name and the variable holds its
    handle. *)
Definition register (x : Var) (u : Unsub) (t : Target) (k : string)
    (s : Instance) : Instance :=
  set_var x u
    (set_live (live s ++ [mkListener (next s) t k]) (set_next (S (next s)) s)).

(** The instance after a run of the effect for the active key [k]. *)
Definition boundState (options contextOptions : option Options.t)
    (hasWindow : bool) (k : string) (s : Instance) : Instance :=
  let s0 := setIsRefetching false s in
  let s1 := register unsubscribeMutations (UnsubCache (next s0))
                     (OnCache k mutated) k s0 in
  let s2 := register unsubscribeRefetching (UnsubCache (next s1))
                     (OnCache k refetching) k s1 in
  let s3 := register unsubscribeResolved (UnsubCache (next s2))
                     (OnCache k resolved) k s2 in
  let s4 := register unsubscribeErrors (UnsubCache (next s3))
                     (OnCache k error) k s3 in
  let s5 := if refetchOnFocus options contextOptions && hasWindow
            then register unsubscribeFocusRefetch (UnsubWindow (next s4))
                          (OnWindow focus) k s4
            else set_var unsubscribeFocusRefetch UnsubNoop s4 in
  let s6 := if refetchOnConnect options contextOptions && hasWindow
            then register unsubscribeConnectRefetch (UnsubWindow (next s5))
                          (OnWindow online) k s5
            else set_var unsubscribeConnectRefetch UnsubNoop s5 in
  set_cleanup true s6.

(** ** The rest of the action surface *)

(** [localExpiration], lines 324-329; [expiration] is the answer the
    cache gives at that moment. *)
Definition localExpiration (expiration : string -> option Z) : M (option Z) :=
  key <- read memo ;;
  match active key with
  | None => ret None
  | Some k => emit (OpExpiration k) ;;; ret (expiration k)
  end.

(** ** The polling signals of [createFocusAvailable], lines 298-318 *)

Record FocusSignals := mkFocus {
  isAvailable : bool;
  availableIn : Z;
}.

Definition setIsAvailable (b : bool) (f : FocusSignals) : FocusSignals :=
  mkFocus b (availableIn f).
Definition setAvailableIn (z : Z) (f : FocusSignals) : FocusSignals :=
  mkFocus (isAvailable f) z.

(** The two [createSignal] calls, lines 299-302: [now] is the clock
    reading of line 300, the timestamp is read from the instance. *)
Definition initialFocusAvailable (options contextOptions : option Options.t)
    (now : Z) (s : Instance) : FocusSignals :=
  mkFocus (bool_decide (focusInterval options contextOptions < now - lastFocus s))
          (focusInterval options contextOptions).

(** One run of the interval callback, lines 304-311. *)
Definition focusAvailableTick (options contextOptions : option Options.t)
    (now : Z) (s : Instance) (f : FocusSignals) : FocusSignals :=
  let last := lastFocus s in
  let availability := focusInterval options contextOptions - (now - last) in
  let f1 :=
    if bool_decide (0 <= availability) then setAvailableIn availability f
    else if bool_decide (availability < 0) && bool_decide (0 < availableIn f)
         then setAvailableIn 0 f
         else f in
  setIsAvailable (bool_decide (focusInterval options contextOptions < now - last)) f1.

(** The signal states [createFocusAvailable] can be in: created against
    some instance, then ticked against whatever the instance has become. *)
Inductive focusReachable (options contextOptions : option Options.t)
  : FocusSignals -> Prop :=
| focus_created now s :
    focusReachable options contextOptions
      (initialFocusAvailable options contextOptions now s)
| focus_ticked now s f :
    focusReachable options contextOptions f ->
    focusReachable options contextOptions
      (focusAvailableTick options contextOptions now s f).

(** Options that only set the switches of the environmental triggers. *)
Definition onlyTriggers (onFocus onConnect : option bool) (interval : option Z)
  : option Options.t :=
  Some (Options.mk None onFocus onConnect interval ∅).

(** The instance [boundA] once [unsubscribe()] was called on it. *)
Definition detachedA : Instance :=
  state_of (handle None None true (rejecting 7%nat) EvUnsubscribe boundA).

(** An instance for ["A"] created with both triggers switched off in the
    options. *)
Definition quietOptions : option Options.t :=
  onlyTriggers (Some false) (Some false) None.
Definition quietA : Instance :=
  state_of (createTurboResource quietOptions None true 0 (Returned (KString "A"))).

(** ** A cache that calls back

    The cache contract above records the calls this layer makes and lets
    the cache return at once.  turbo-query also calls listeners back
    while a call is running: [query] dispatches 'refetching' to the
    listeners of the key when it starts a fetch, and [subscribe] hands a
    fetch that is already running for the key to a new 'refetching'
    listener.  Here the cache's side is an oracle: [announces n] is the
    promise the cache dispatches as 'refetching' during the call that was
    given the name [n], if it dispatches one.  Everything else is as
    above; with an oracle that never answers, the two coincide
    ([silent_handle]). *)
Module Announcing.
Section createTurboResource.

Variable options : option Options.t.
Variable contextOptions : option Options.t.
Variable hasWindow : bool.
Variable settle : Promise -> PromiseState.
Variable announces : nat -> option Promise.

(** What the cache does inside [query] when it starts a fetch. *)
Definition announce (n : nat) (k : string) : M unit :=
  match announces n with
  | Some running => dispatch options contextOptions k (DRefetching running)
  | None => ret tt
  end.

(** What the cache does inside [subscribe(key, 'refetching', h)] when a
    fetch is running: it calls [h], the handler of lines 400-406. *)
Definition replay (n : nat) : M unit :=
  match announces n with
  | Some running => handler options contextOptions (DRefetching running)
  | None => ret tt
  end.

Definition query (k : string) (o : gmap string QVal) : M Promise :=
  p <- fresh ;;
  emit (OpQuery k o p) ;;;
  announce p k ;;;
  ret p.

Definition subscribe (k : string) (ev : CacheEvent) : M Unsub :=
  id <- fresh ;;
  emit (OpSubscribe k ev id) ;;;
  modify (fun s => set_live (live s ++ [mkListener id (OnCache k ev) k]) s) ;;;
  match ev with
  | refetching => replay id
  | _ => ret tt
  end ;;;
  ret (UnsubCache id).

(** Lines 211-215. *)
Definition loader (k : string) (r : Refetching) : M Promise :=
  match r with
  | RPromise p => ret p
  | _ => query k (spread true contextOptions options)
  end.

Definition resource_load (k : TurboSolidKeyType) : M unit :=
  match k with
  | KString s => _ <- loader s (RBoolean false) ;; ret tt
  | _ => ret tt
  end.

(** Lines 232-239. *)
Definition localRefetch : M PromiseState :=
  async (
    key <- read memo ;;
    match active key with
    | None => ret None
    | Some k =>
        promise <- query k (spread false contextOptions options) ;;
        through_transition options contextOptions (CellRefetch promise) ;;;
        await settle promise
    end).

Definition refetchListener : M unit := _ <- localRefetch ;; ret tt.

(** Lines 383-443. *)
Definition subscriptionEffect : M unit :=
  modify (setIsRefetching false) ;;;
  key <- read memo ;;
  match active key with
  | None => ret tt
  | Some k =>
      assign unsubscribeMutations (subscribe k mutated) ;;;
      assign unsubscribeRefetching (subscribe k refetching) ;;;
      assign unsubscribeResolved (subscribe k resolved) ;;;
      assign unsubscribeErrors (subscribe k error) ;;;
      assign unsubscribeFocusRefetch (onFocus options contextOptions hasWindow k) ;;;
      assign unsubscribeConnectRefetch (onConnect options contextOptions hasWindow k) ;;;
      modify (set_cleanup true)
  end.

Definition keyChanged (key : Call TurboSolidKeyType) : M unit :=
  old <- read memo ;;
  if decide (keyMemo key = old) then ret tt
  else
    modify (set_memo (keyMemo key)) ;;;
    resource_load (keyMemo key) ;;;
    runCleanup ;;;
    subscriptionEffect.

Definition windowFocus (now now' : Z) : M unit :=
  ls <- read live ;;
  forEach (filter (fun l => listens (OnWindow focus) l) ls)
          (fun _ => rawHandler options contextOptions refetchListener now now').

Definition windowOnline : M unit :=
  ls <- read live ;;
  forEach (filter (fun l => listens (OnWindow online) l) ls)
          (fun _ => refetchListener).

Definition handle (e : Event) : M unit :=
  match e with
  | EvKey key => keyChanged key
  | EvCache k d => dispatch options contextOptions k d
  | EvFocus now now' => windowFocus now now'
  | EvOnline => windowOnline
  | EvLoading b => modify (set_loading b)
  | EvMutate value => localMutate value
  | EvRefetch => _ <- localRefetch ;; ret tt
  | EvForget => localForget
  | EvAbort reason => localAbort reason
  | EvUnsubscribe => localUnsubscribe
  end.

Definition mount : M unit :=
  k <- read memo ;; resource_load k ;;; subscriptionEffect.

Definition createTurboResource (now : Z) (key : Call TurboSolidKeyType)
  : Outcome unit * Instance * list Op :=
  mount (initial now key).

Inductive reachable : Instance -> Prop :=
| reachable_created now key :
    reachable (state_of (createTurboResource now key))
| reachable_step s e :
    reachable s -> reachable (state_of (handle e s)).

Definition handleAll (es : list Event) : M unit := forEach es handle.

End createTurboResource.
End Announcing.

(** A cache that announces, during every call, the name of the call as a
    running fetch; and one that never calls back. *)
Definition eager : nat -> option Promise := fun n => Some n.
Definition silent : nat -> option Promise := fun _ => None.

(** Two instances that differ at most in the refetching flag. *)
Definition flagOnly (s s' : Instance) : Prop :=
  exists b, s' = setIsRefetching b s.

(** The flag after a call during which the cache may have announced a
    running fetch to a registered 'refetching' listener. *)
Definition announced (o : option Promise) (s : Instance) : Instance :=
  match o with
  | Some _ => setIsRefetching true s
  | None => s
  end.

(** What the 'refetching' handler adds to the trace when the cache
    announces a running fetch. *)
Definition announcedTrace (options contextOptions : option Options.t)
    (o : option Promise) (s : Instance) : list Op :=
  match o with
  | Some running =>
      if loading s then []
      else [commitOp options contextOptions (CellRefetch running)]
  | None => []
  end.

(** The calls one run of the effect makes when the cache may answer the
    'refetching' subscription. *)
Definition setupTraceA (options contextOptions : option Options.t)
    (hasWindow : bool) (announces : nat -> option Promise)
    (k : string) (s : Instance) : list Op :=
  [ OpSubscribe k mutated (next s);
    OpSubscribe k refetching (S (next s)) ]
  ++ announcedTrace options contextOptions (announces (S (next s))) s
  ++ [ OpSubscribe k resolved (S (S (next s)));
       OpSubscribe k error (S (S (S (next s)))) ]
  ++ (if refetchOnFocus options contextOptions && hasWindow
      then [ OpAddEventListener focus (S (S (S (S (next s))))) ] else [])
  ++ (if refetchOnConnect options contextOptions && hasWindow
      then [ OpAddEventListener online
               (if refetchOnFocus options contextOptions && hasWindow
                then S (S (S (S (S (next s))))) else S (S (S (S (next s))))) ]
      else []).

(** The instance for ["A"] created against the cache [eager], with no
    options, no context and a window; and the same once [unsubscribe()]
    was called on it. *)
Definition eagerA : Instance :=
  state_of (Announcing.createTurboResource None None true eager 0
              (Returned (KString "A"))).
Definition eagerDetachedA : Instance :=
  state_of (Announcing.handle None None true (rejecting 7%nat) eager
              EvUnsubscribe eagerA).

(** * Properties *)

(** ** Basic facts about the embedding *)

Lemma falsy_active (k : TurboSolidKeyType) : falsy k = true <-> active k = None.
Proof. destruct k as [[|a s]| | |]; simpl; split; congruence. Qed.

Lemma active_string (k : TurboSolidKeyType) (s : string) :
  active k = Some s -> k = KString s.
Proof. destruct k as [[|a r]| | |]; simpl; congruence. Qed.

Lemma not_string_inactive (k : TurboSolidKeyType) :
  is_string k = false -> active k = None.
Proof. destruct k; simpl; congruence. Qed.

Lemma state_of_run {A} (o : Outcome A) s t : state_of (o, s, t) = s.
Proof. reflexivity. Qed.

Lemma result_of_run {A} (o : Outcome A) s t : result_of (o, s, t) = o.
Proof. reflexivity. Qed.

Lemma trace_of_run {A} (o : Outcome A) s t : trace_of (o, s, t) = t.
Proof. reflexivity. Qed.

Lemma bind_returns {A B} (m : M A) (f : A -> M B) s a :
  result_of (m s) = Returns a ->
  bind m f s =
    (result_of (f a (state_of (m s))), state_of (f a (state_of (m s))),
     trace_of (m s) ++ trace_of (f a (state_of (m s)))).
Proof.
  unfold bind, result_of, state_of, trace_of.
  destruct (m s) as [[o s1] t1]. simpl. intros ->.
  destruct (f a s1) as [[r s2] t2]. reflexivity.
Qed.

Lemma read_bind {A B} (g : Instance -> A) (k : A -> M B) s :
  bind (read g) k s = k (g s) s.
Proof.
  unfold bind, read. destruct (k (g s) s) as [[r s2] t2]. reflexivity.
Qed.

Lemma modify_bind {B} (g : Instance -> Instance) (k : unit -> M B) s :
  bind (modify g) k s = k tt (g s).
Proof.
  unfold bind, modify. destruct (k tt (g s)) as [[r s2] t2]. reflexivity.
Qed.

(** ** The transition adapter *)


(** C1, as the code has it: a caller-supplied function is used as it is;
    [true] resolves to the host's [startTransition]; an absent option
    resolves to [startTransition] as well; [false], and nothing else,
    resolves to no transition, and then every commit reaches the resource
    cell directly, while a resolved transition function receives it. *)
Theorem C1_transition_resolution :
  (forall f, getTransition (Some (TFunction f)) = Some f) /\
  getTransition (Some (TBoolean true)) = Some startTransition /\
  getTransition None = Some startTransition /\
  getTransition (Some (TBoolean false)) = None /\
  (forall options contextOptions,
      transition options contextOptions = None <->
      opt_field options Options.transition
        ?? opt_field contextOptions Options.transition
      = Some (TBoolean false)) /\
  (forall options contextOptions c s,
      transition options contextOptions = None ->
      through_transition options contextOptions c s
      = (Returns tt, s, [OpDirect c])) /\
  (forall options contextOptions f c s,
      transition options contextOptions = Some f ->
      through_transition options contextOptions c s
      = (Returns tt, s, [OpViaTransition f c])).
Proof.
  split; [reflexivity|]. do 3 (split; [reflexivity|]).
  split; [|split].
  - intros options contextOptions. unfold transition.
    destruct (_ ?? _) as [[[|]|f]|]; simpl; split; congruence.
  - intros options contextOptions c s H.
    unfold through_transition. rewrite H. reflexivity.
  - intros options contextOptions f c s H.
    unfold through_transition. rewrite H. reflexivity.
Qed.

Lemma C1_transition_resolution_witness :
  through_transition (onlyTransition (Some (TBoolean false))) None
                     (CellRefetch 3%nat) (initial 0 (Returned KNull))
  = (Returns tt, initial 0 (Returned KNull), [OpDirect (CellRefetch 3%nat)])
  /\ through_transition (onlyTransition (Some (TFunction (callerTransition 9%nat))))
                        None (CellMutate 4%nat) (initial 0 (Returned KNull))
     = (Returns tt, initial 0 (Returned KNull),
        [OpViaTransition (callerTransition 9%nat) (CellMutate 4%nat)]).
Proof.
  split.
  - apply C1_transition_resolution. reflexivity.
  - apply C1_transition_resolution. reflexivity.
Defined.

(** C1 as stated fails for an absent option: with no [transition] entry
    in the options and none in the context, the adapter resolves to the
    host's [startTransition], and a commit is handed to it instead of
    being performed directly. *)
Lemma C1_absent_option_counterexample :
  getTransition None <> None /\
  transition None None = Some startTransition /\
  through_transition None None (CellRefetch 3%nat) (initial 0 (Returned KNull))
  = (Returns tt, initial 0 (Returned KNull),
     [OpViaTransition startTransition (CellRefetch 3%nat)]).
Proof. repeat split; try reflexivity. discriminate. Qed.

(** ** Closed forms of the teardown *)


Lemma callVar_run x s : callVar x s = (Returns tt, afterVar x s, traceVar x s).
Proof.
  unfold callVar, afterVar, traceVar, bind, read, callUnsub, emit, modify, ret.
  destruct (vars s x) as [[id|id|]|]; reflexivity.
Qed.

Lemma afterVar_vars x s : vars (afterVar x s) = vars s.
Proof. unfold afterVar. destruct (vars s x) as [[id|id|]|]; reflexivity. Qed.

Lemma traceVar_afterVar x y s : traceVar x (afterVar y s) = traceVar x s.
Proof. unfold traceVar. rewrite afterVar_vars. reflexivity. Qed.

Lemma afterVar_frame x s :
  memo (afterVar x s) = memo s /\ isRefetching (afterVar x s) = isRefetching s /\
  lastFocus (afterVar x s) = lastFocus s /\ loading (afterVar x s) = loading s /\
  cleanup (afterVar x s) = cleanup s /\ next (afterVar x s) = next s.
Proof.
  unfold afterVar. destruct (vars s x) as [[id|id|]|]; repeat split; reflexivity.
Qed.

Lemma afterVar_live x s (l : Listener) :
  l ∈ live (afterVar x s) <->
  l ∈ live s /\ vars s x <> Some (UnsubCache (lid l))
             /\ vars s x <> Some (UnsubWindow (lid l)).
Proof.
  unfold afterVar, remove_listener.
  destruct (vars s x) as [[id|id|]|]; simpl.
  - rewrite list_elem_of_filter. split.
    + intros [Hne Hin]. repeat split; [assumption| |]; congruence.
    + intros (Hin & H1 & _). split; [congruence | assumption].
  - rewrite list_elem_of_filter. split.
    + intros [Hne Hin]. repeat split; [assumption| |]; congruence.
    + intros (Hin & _ & H2). split; [congruence | assumption].
  - split; [intros H; repeat split; [assumption| |]; congruence | tauto].
  - split; [intros H; repeat split; [assumption| |]; congruence | tauto].
Qed.

Lemma localUnsubscribe_run s :
  localUnsubscribe s =
    (Returns tt, foldl (fun s x => afterVar x s) s teardownOrder,
     flat_map (fun x => traceVar x s) teardownOrder).
Proof.
  unfold localUnsubscribe, bind.
  repeat (rewrite callVar_run; cbv beta iota).
  simpl. rewrite !traceVar_afterVar, !app_nil_r. reflexivity.
Qed.

Lemma localUnsubscribe_trace s :
  Forall (fun o => is_unsubscribe o = true) (trace_of (localUnsubscribe s)).
Proof.
  rewrite localUnsubscribe_run. unfold trace_of. simpl.
  unfold traceVar.
  repeat match goal with |- context [vars s ?x] => destruct (vars s x) end;
    simpl; repeat constructor.
Qed.

Lemma localUnsubscribe_frame s :
  let s' := state_of (localUnsubscribe s) in
  memo s' = memo s /\ isRefetching s' = isRefetching s /\
  lastFocus s' = lastFocus s /\ loading s' = loading s /\
  cleanup s' = cleanup s /\ next s' = next s /\ vars s' = vars s.
Proof.
  rewrite localUnsubscribe_run. unfold state_of. simpl.
  repeat split;
    repeat first [ rewrite afterVar_vars
                 | rewrite (proj1 (afterVar_frame _ _))
                 | rewrite (proj1 (proj2 (afterVar_frame _ _)))
                 | rewrite (proj1 (proj2 (proj2 (afterVar_frame _ _))))
                 | rewrite (proj1 (proj2 (proj2 (proj2 (afterVar_frame _ _)))))
                 | rewrite (proj1 (proj2 (proj2 (proj2 (proj2 (afterVar_frame _ _))))))
                 | rewrite (proj2 (proj2 (proj2 (proj2 (proj2 (afterVar_frame _ _)))))) ];
    reflexivity.
Qed.

(** After the teardown a listener is still registered only if none of the
    six variables held its handle. *)
Lemma localUnsubscribe_live s (l : Listener) :
  l ∈ live (state_of (localUnsubscribe s)) <->
  l ∈ live s /\ forall x, vars s x <> Some (UnsubCache (lid l))
                       /\ vars s x <> Some (UnsubWindow (lid l)).
Proof.
  rewrite localUnsubscribe_run. unfold state_of. simpl.
  rewrite !afterVar_live, !afterVar_vars. split.
  - intros H. split; [tauto|]. intros []; tauto.
  - intros [Hin H].
    pose proof (H unsubscribeMutations). pose proof (H unsubscribeRefetching).
    pose proof (H unsubscribeFocusRefetch). pose proof (H unsubscribeConnectRefetch).
    pose proof (H unsubscribeResolved). pose proof (H unsubscribeErrors). tauto.
Qed.

(** ** Closed forms of the setup *)

Section Closures.

Variable options : option Options.t.
Variable contextOptions : option Options.t.
Variable hasWindow : bool.
Variable settle : Promise -> PromiseState.

Local Abbreviation subscriptionEffect' := (subscriptionEffect options contextOptions hasWindow).
Local Abbreviation handle' := (handle options contextOptions hasWindow settle).
Local Abbreviation keyChanged' := (keyChanged options contextOptions hasWindow).
Local Abbreviation resource_load' := (resource_load options contextOptions).
Local Abbreviation localRefetch' := (localRefetch options contextOptions settle).
Local Abbreviation oneSet' := (oneSet options contextOptions hasWindow).

Lemma bind_run {A B} (m : M A) (f : A -> M B) s a s1 t1 :
  m s = (Returns a, s1, t1) ->
  bind m f s = (result_of (f a s1), state_of (f a s1), t1 ++ trace_of (f a s1)).
Proof.
  intros H. unfold bind. rewrite H.
  destruct (f a s1) as [[r s2] t2]. reflexivity.
Qed.

Lemma assign_subscribe_run x k ev s :
  assign x (subscribe k ev) s
  = (Returns tt, register x (UnsubCache (next s)) (OnCache k ev) k s,
     [OpSubscribe k ev (next s)]).
Proof. reflexivity. Qed.

Lemma assign_onFocus_run k s :
  assign unsubscribeFocusRefetch (onFocus options contextOptions hasWindow k) s
  = if refetchOnFocus options contextOptions && hasWindow
    then (Returns tt,
          register unsubscribeFocusRefetch (UnsubWindow (next s))
                   (OnWindow focus) k s,
          [OpAddEventListener focus (next s)])
    else (Returns tt, set_var unsubscribeFocusRefetch UnsubNoop s, []).
Proof.
  unfold assign, onFocus.
  destruct (refetchOnFocus options contextOptions && hasWindow); reflexivity.
Qed.

Lemma assign_onConnect_run k s :
  assign unsubscribeConnectRefetch (onConnect options contextOptions hasWindow k) s
  = if refetchOnConnect options contextOptions && hasWindow
    then (Returns tt,
          register unsubscribeConnectRefetch (UnsubWindow (next s))
                   (OnWindow online) k s,
          [OpAddEventListener online (next s)])
    else (Returns tt, set_var unsubscribeConnectRefetch UnsubNoop s, []).
Proof.
  unfold assign, onConnect.
  destruct (refetchOnConnect options contextOptions && hasWindow); reflexivity.
Qed.

Lemma subscriptionEffect_inactive s :
  active (memo s) = None ->
  subscriptionEffect' s = (Returns tt, setIsRefetching false s, []).
Proof.
  intros H. unfold subscriptionEffect. rewrite modify_bind, read_bind.
  change (memo (setIsRefetching false s)) with (memo s).
  rewrite H. reflexivity.
Qed.

(** The run of the effect for an active key, call by call. *)
Lemma subscriptionEffect_bound s k :
  active (memo s) = Some k ->
  subscriptionEffect' s
  = (Returns tt, boundState options contextOptions hasWindow k s,
     setupTrace options contextOptions hasWindow k (next s)).
Proof.
  intros H. unfold subscriptionEffect. rewrite modify_bind, read_bind.
  change (memo (setIsRefetching false s)) with (memo s).
  rewrite H.
  rewrite (bind_run _ _ _ _ _ _ (assign_subscribe_run _ _ _ _)).
  rewrite (bind_run _ _ _ _ _ _ (assign_subscribe_run _ _ _ _)).
  rewrite (bind_run _ _ _ _ _ _ (assign_subscribe_run _ _ _ _)).
  rewrite (bind_run _ _ _ _ _ _ (assign_subscribe_run _ _ _ _)).
  unfold boundState, setupTrace.
  set (s4 := register unsubscribeErrors _ _ _ _).
  rewrite (bind_returns _ _ _ tt)
    by (rewrite assign_onFocus_run; destruct (_ && _); reflexivity).
  rewrite (bind_returns _ _ _ tt)
    by (rewrite assign_onConnect_run; destruct (_ && _); reflexivity).
  rewrite assign_onFocus_run.
  destruct (refetchOnFocus options contextOptions && hasWindow);
    rewrite !state_of_run, !trace_of_run, assign_onConnect_run;
    destruct (refetchOnConnect options contextOptions && hasWindow);
    reflexivity.
Qed.

Lemma subscriptionEffect_active s k :
  active (memo s) = Some k ->
  let r := subscriptionEffect' s in
  result_of r = Returns tt /\
  trace_of r = setupTrace options contextOptions hasWindow k (next s) /\
  memo (state_of r) = memo s /\
  isRefetching (state_of r) = false /\
  lastFocus (state_of r) = lastFocus s /\
  loading (state_of r) = loading s /\
  cleanup (state_of r) = true /\
  live (state_of r)
    = live s ++ subscriptionSet options contextOptions hasWindow k (next s) /\
  forall x, vars (state_of r) x
            = Some (handleOf options contextOptions hasWindow (next s) x).
Proof.
  intros H. cbv zeta. rewrite (subscriptionEffect_bound s k H).
  rewrite result_of_run, state_of_run, trace_of_run.
  unfold boundState, subscriptionSet, handleOf.
  destruct (refetchOnFocus options contextOptions && hasWindow);
    destruct (refetchOnConnect options contextOptions && hasWindow);
    (repeat split; try reflexivity;
     [ cbn; rewrite <- !app_assoc; reflexivity | intros []; reflexivity ]).
Qed.

Lemma subscriptionEffect_returns s : result_of (subscriptionEffect' s) = Returns tt.
Proof.
  destruct (active (memo s)) as [k|] eqn:H.
  - apply (subscriptionEffect_active s k H).
  - rewrite subscriptionEffect_inactive by assumption. reflexivity.
Qed.

Lemma subscriptionEffect_trace s :
  Forall (fun o => is_subscribe o = true) (trace_of (subscriptionEffect' s)).
Proof.
  destruct (active (memo s)) as [k|] eqn:H.
  - destruct (subscriptionEffect_active s k H) as (_ & -> & _).
    unfold setupTrace.
    destruct (refetchOnFocus options contextOptions && hasWindow);
      destruct (refetchOnConnect options contextOptions && hasWindow);
      simpl; repeat constructor.
  - rewrite subscriptionEffect_inactive by assumption. constructor.
Qed.

Lemma resource_load_run k s :
  resource_load' k s =
    match k with
    | KString key =>
        (Returns tt, set_next (S (next s)) s,
         [OpQuery key (spread true contextOptions options) (next s)])
    | _ => (Returns tt, s, [])
    end.
Proof. destruct k; reflexivity. Qed.

Lemma resource_load_returns k s : result_of (resource_load' k s) = Returns tt.
Proof. rewrite resource_load_run. destruct k; reflexivity. Qed.

Lemma resource_load_frame k s :
  let s' := state_of (resource_load' k s) in
  memo s' = memo s /\ isRefetching s' = isRefetching s /\
  lastFocus s' = lastFocus s /\ loading s' = loading s /\
  cleanup s' = cleanup s /\ live s' = live s /\ vars s' = vars s.
Proof. rewrite resource_load_run. destruct k; repeat split; reflexivity. Qed.

Lemma runCleanup_run s :
  runCleanup s =
    if cleanup s
    then (Returns tt, state_of (localUnsubscribe (set_cleanup false s)),
          trace_of (localUnsubscribe (set_cleanup false s)))
    else (Returns tt, set_cleanup false s, []).
Proof.
  unfold runCleanup, bind, read, modify. simpl.
  destruct (cleanup s).
  - rewrite localUnsubscribe_run. reflexivity.
  - reflexivity.
Qed.

Lemma runCleanup_returns s : result_of (runCleanup s) = Returns tt.
Proof. rewrite runCleanup_run. destruct (cleanup s); reflexivity. Qed.

Lemma runCleanup_trace s :
  Forall (fun o => is_unsubscribe o = true) (trace_of (runCleanup s)).
Proof.
  rewrite runCleanup_run. destruct (cleanup s).
  - apply localUnsubscribe_trace.
  - constructor.
Qed.

Lemma runCleanup_frame s :
  let s' := state_of (runCleanup s) in
  memo s' = memo s /\ isRefetching s' = isRefetching s /\
  lastFocus s' = lastFocus s /\ loading s' = loading s /\
  cleanup s' = false /\ next s' = next s /\ vars s' = vars s.
Proof.
  rewrite runCleanup_run. destruct (cleanup s) eqn:Hc.
  - destruct (localUnsubscribe_frame (set_cleanup false s))
      as (H1 & H2 & H3 & H4 & H5 & H6 & H7).
    unfold state_of in *. simpl in *. repeat split; assumption.
  - repeat split; reflexivity.
Qed.

(** The teardown leaves no listener behind when every listener is held by
    a variable. *)
Lemma runCleanup_clears s :
  owned s -> live (state_of (runCleanup s)) = [].
Proof.
  intros Hown. rewrite runCleanup_run.
  destruct (cleanup s) eqn:Hc.
  - apply elem_of_nil_inv. intros l Hl.
    apply localUnsubscribe_live in Hl as [Hin Hno]. simpl in Hin, Hno.
    destruct (Hown l Hin) as [_ [x [Hx|Hx]]]; destruct (Hno x); congruence.
  - unfold state_of. simpl.
    destruct (live s) as [|l ls] eqn:Hl; [reflexivity|].
    destruct (Hown l) as [Hcl _]; [rewrite Hl; left|]. congruence.
Qed.

(** What a change of the key does, piece by piece. *)
Lemma keyChanged_same key s :
  keyMemo key = memo s -> keyChanged' key s = (Returns tt, s, []).
Proof.
  intros H. unfold keyChanged, bind, read. simpl.
  destruct (decide (keyMemo key = memo s)); [reflexivity | contradiction].
Qed.

Lemma keyChanged_run key s :
  keyMemo key <> memo s ->
  let r1 := resource_load' (keyMemo key) (set_memo (keyMemo key) s) in
  let r2 := runCleanup (state_of r1) in
  let r3 := subscriptionEffect' (state_of r2) in
  keyChanged' key s =
    (Returns tt, state_of r3, trace_of r1 ++ trace_of r2 ++ trace_of r3).
Proof.
  intros H. unfold keyChanged.
  unfold bind at 1. unfold read at 1.
  destruct (decide (keyMemo key = memo s)); [contradiction|].
  unfold bind at 1. unfold modify at 1.
  rewrite (bind_returns _ _ _ tt) by apply resource_load_returns.
  rewrite (bind_returns _ _ _ tt) by apply runCleanup_returns.
  unfold result_of, state_of, trace_of. simpl.
  pose proof (subscriptionEffect_returns
    (state_of (runCleanup (state_of
       (resource_load' (keyMemo key) (set_memo (keyMemo key) s)))))) as Hr.
  unfold result_of, state_of in Hr. rewrite Hr. reflexivity.
Qed.

(** ** The binding invariant *)

Lemma subscriptionSet_held k n (l : Listener) :
  l ∈ subscriptionSet options contextOptions hasWindow k n ->
  exists x,
    handleOf options contextOptions hasWindow n x = UnsubCache (lid l)
    \/ handleOf options contextOptions hasWindow n x = UnsubWindow (lid l).
Proof.
  unfold subscriptionSet, handleOf.
  destruct (refetchOnFocus options contextOptions && hasWindow) eqn:Hf;
    destruct (refetchOnConnect options contextOptions && hasWindow) eqn:Hc;
    simpl; intros Hl;
    repeat (apply elem_of_cons in Hl as [->|Hl]);
    try (apply elem_of_nil in Hl; contradiction); simpl.
  all: first
    [ exists unsubscribeMutations; left; reflexivity
    | exists unsubscribeRefetching; left; reflexivity
    | exists unsubscribeResolved; left; reflexivity
    | exists unsubscribeErrors; left; reflexivity
    | exists unsubscribeFocusRefetch; rewrite ?Hf; right; reflexivity
    | exists unsubscribeConnectRefetch; rewrite ?Hf, ?Hc; right; reflexivity ].
Qed.

Lemma effect_invariant s :
  live s = [] ->
  owned (state_of (subscriptionEffect' s))
  /\ oneSet' (state_of (subscriptionEffect' s)).
Proof.
  intros Hlive. destruct (active (memo s)) as [k|] eqn:Hk.
  - destruct (subscriptionEffect_active s k Hk)
      as (_ & _ & Hm & _ & _ & _ & Hc & Hl & Hv).
    rewrite Hlive in Hl. simpl in Hl. split.
    + intros l Hin. rewrite Hl in Hin. split; [assumption|].
      destruct (subscriptionSet_held _ _ _ Hin) as [x Hx].
      exists x. rewrite Hv. destruct Hx as [-> | ->]; [left | right]; reflexivity.
    + right. exists k, (next s). rewrite Hm. split; assumption.
  - rewrite subscriptionEffect_inactive by assumption.
    unfold state_of. simpl. split.
    + intros l Hin. simpl in Hin. rewrite Hlive in Hin.
      apply elem_of_nil in Hin. contradiction.
    + left. assumption.
Qed.

Lemma sameBinding_refl s : sameBinding s s.
Proof. repeat split. Qed.

Lemma sameBinding_trans s1 s2 s3 :
  sameBinding s1 s2 -> sameBinding s2 s3 -> sameBinding s1 s3.
Proof.
  unfold sameBinding. intros (A1 & A2 & A3 & A4) (B1 & B2 & B3 & B4).
  repeat split; congruence.
Qed.

Lemma sameBinding_invariant s s' :
  sameBinding s s' -> owned s /\ oneSet' s -> owned s' /\ oneSet' s'.
Proof.
  unfold sameBinding, owned, oneSet. intros (Hm & Hv & Hc & Hl) [Ho Hs].
  rewrite Hm, Hv, Hc, Hl. split; assumption.
Qed.

Lemma forEach_frame {A} (P : Instance -> Instance -> Prop) (f : A -> M unit) :
  (forall s, P s s) ->
  (forall s1 s2 s3, P s1 s2 -> P s2 s3 -> P s1 s3) ->
  (forall a s, result_of (f a s) = Returns tt /\ P s (state_of (f a s))) ->
  forall l s, result_of (forEach l f s) = Returns tt
              /\ P s (state_of (forEach l f s)).
Proof.
  intros Hrefl Htrans Hf l. induction l as [|a l IH]; intros s.
  - split; [reflexivity | apply Hrefl].
  - simpl. destruct (Hf a s) as [Hr Hp].
    rewrite (bind_returns _ _ _ tt) by assumption.
    unfold result_of, state_of at 1. simpl.
    destruct (IH (state_of (f a s))) as [Hr' Hp'].
    split; [assumption | eapply Htrans; eassumption].
Qed.

(** ** Closed forms of the actions and handlers *)

Lemma through_transition_run c s :
  through_transition options contextOptions c s
  = (Returns tt, s, [commitOp options contextOptions c]).
Proof.
  unfold through_transition, commitOp.
  destruct (transition options contextOptions); reflexivity.
Qed.

Lemma localRefetch_run s :
  localRefetch' s =
    match active (memo s) with
    | None => (Returns (Fulfilled None), s, [])
    | Some k =>
        (Returns (settle (next s)), set_next (S (next s)) s,
         [ OpQuery k (spread false contextOptions options) (next s);
           commitOp options contextOptions (CellRefetch (next s)) ])
    end.
Proof.
  unfold localRefetch, async, bind, read, query, fresh, emit, ret, await.
  simpl. destruct (active (memo s)) as [k|]; [|reflexivity].
  simpl. rewrite through_transition_run. simpl.
  destruct (settle (next s)); reflexivity.
Qed.

Lemma refetchListener_run s :
  refetchListener options contextOptions settle s
  = (Returns tt, state_of (localRefetch' s), trace_of (localRefetch' s)).
Proof.
  unfold refetchListener, bind. rewrite localRefetch_run.
  destruct (active (memo s)); reflexivity.
Qed.

Lemma localRefetch_frame s :
  sameBinding s (state_of (localRefetch' s))
  /\ isRefetching (state_of (localRefetch' s)) = isRefetching s
  /\ lastFocus (state_of (localRefetch' s)) = lastFocus s.
Proof.
  rewrite localRefetch_run.
  destruct (active (memo s)); repeat split; reflexivity.
Qed.

Lemma refetchListener_frame s :
  result_of (refetchListener options contextOptions settle s) = Returns tt
  /\ sameBinding s (state_of (refetchListener options contextOptions settle s)).
Proof.
  rewrite refetchListener_run. split; [reflexivity|].
  apply localRefetch_frame.
Qed.

Lemma rawHandler_run listener now now' s :
  rawHandler options contextOptions listener now now' s =
    if bool_decide (focusInterval options contextOptions < now - lastFocus s)
    then (result_of (listener (setLastFocus now' s)),
          state_of (listener (setLastFocus now' s)),
          trace_of (listener (setLastFocus now' s)))
    else (Returns tt, s, []).
Proof.
  unfold rawHandler, bind, read, modify. simpl.
  destruct (bool_decide _); [|reflexivity].
  destruct (listener (setLastFocus now' s)) as [[o s1] t1].
  destruct o; reflexivity.
Qed.

Lemma rawHandler_frame now now' s :
  let r := rawHandler options contextOptions
             (refetchListener options contextOptions settle) now now' s in
  result_of r = Returns tt /\ sameBinding s (state_of r).
Proof.
  rewrite rawHandler_run. destruct (bool_decide _).
  - destruct (refetchListener_frame (setLastFocus now' s)) as [Hr Hs].
    split; [assumption|]. unfold state_of at 1. simpl. exact Hs.
  - split; [reflexivity | apply sameBinding_refl].
Qed.

Lemma handler_frame d s :
  result_of (handler options contextOptions d s) = Returns tt
  /\ sameBinding s (state_of (handler options contextOptions d s)).
Proof.
  destruct d; unfold handler, bind, modify, read; simpl;
    rewrite ?through_transition_run; try (split; [reflexivity|repeat split]).
  destruct (loading s); rewrite ?through_transition_run;
    (split; [reflexivity|repeat split]).
Qed.

Lemma localMutate_run value s :
  localMutate value s =
    match active (memo s) with
    | None => (Returns tt, s, [])
    | Some k => (Returns tt, s, [OpMutate k value])
    end.
Proof.
  unfold localMutate, bind, read. simpl. destruct (active (memo s)); reflexivity.
Qed.

Lemma localForget_run s :
  localForget s =
    match active (memo s) with
    | None => (Returns tt, s, [])
    | Some k => (Returns tt, s, [OpForget k])
    end.
Proof.
  unfold localForget, bind, read. simpl. destruct (active (memo s)); reflexivity.
Qed.

Lemma localAbort_run reason s :
  localAbort reason s =
    match active (memo s) with
    | None => (Returns tt, s, [])
    | Some k => (Returns tt, s, [OpAbort k reason])
    end.
Proof.
  unfold localAbort, bind, read. simpl. destruct (active (memo s)); reflexivity.
Qed.

(** Every event but a key change and [unsubscribe()] leaves the binding
    alone and completes. *)
Lemma handle_frame e s :
  (forall key, e <> EvKey key) -> e <> EvUnsubscribe ->
  result_of (handle' e s) = Returns tt /\ sameBinding s (state_of (handle' e s)).
Proof.
  intros Hk Hu. destruct e as [key|k d|now now'| |b|v| | |r|]; simpl.
  - destruct (Hk key). reflexivity.
  - unfold dispatch. rewrite read_bind.
    apply (forEach_frame sameBinding);
      [apply sameBinding_refl | apply sameBinding_trans |].
    intros _ s0. apply handler_frame.
  - unfold windowFocus. rewrite read_bind.
    apply (forEach_frame sameBinding);
      [apply sameBinding_refl | apply sameBinding_trans |].
    intros _ s0. apply rawHandler_frame.
  - unfold windowOnline. rewrite read_bind.
    apply (forEach_frame sameBinding);
      [apply sameBinding_refl | apply sameBinding_trans |].
    intros _ s0. apply refetchListener_frame.
  - split; [reflexivity | repeat split].
  - rewrite localMutate_run. destruct (active (memo s)); split;
      try reflexivity; apply sameBinding_refl.
  - unfold bind. rewrite localRefetch_run.
    destruct (active (memo s)); split; try reflexivity; repeat split.
  - rewrite localForget_run. destruct (active (memo s)); split;
      try reflexivity; apply sameBinding_refl.
  - rewrite localAbort_run. destruct (active (memo s)); split;
      try reflexivity; apply sameBinding_refl.
  - destruct Hu. reflexivity.
Qed.

Lemma localUnsubscribe_clears s :
  owned s -> live (state_of (localUnsubscribe s)) = [].
Proof.
  intros Hown. apply elem_of_nil_inv. intros l Hl.
  apply localUnsubscribe_live in Hl as [Hin Hno].
  destruct (Hown l Hin) as [_ [x [Hx|Hx]]]; destruct (Hno x); congruence.
Qed.

Lemma empty_invariant s : live s = [] -> owned s /\ oneSet' s.
Proof.
  intros H. split.
  - intros l Hl. rewrite H in Hl. apply elem_of_nil in Hl. contradiction.
  - left. assumption.
Qed.

Lemma created_run now key :
  createTurboResource options contextOptions hasWindow now key =
    let r1 := resource_load' (keyMemo key) (initial now key) in
    let r2 := subscriptionEffect' (state_of r1) in
    (Returns tt, state_of r2, trace_of r1 ++ trace_of r2).
Proof.
  unfold createTurboResource, mount. rewrite read_bind.
  rewrite (bind_returns _ _ _ tt) by apply resource_load_returns.
  simpl. rewrite subscriptionEffect_returns. reflexivity.
Qed.

Lemma created_invariant now key :
  let s := state_of (createTurboResource options contextOptions hasWindow now key) in
  owned s /\ oneSet' s.
Proof.
  rewrite created_run. unfold state_of at 1 3. simpl.
  apply effect_invariant.
  destruct (resource_load_frame (keyMemo key) (initial now key))
    as (_ & _ & _ & _ & _ & Hl & _).
  rewrite Hl. reflexivity.
Qed.

Lemma keyChanged_live_cleared key s :
  owned s ->
  live (state_of (runCleanup (state_of
         (resource_load' (keyMemo key) (set_memo (keyMemo key) s))))) = [].
Proof.
  intros Hown. apply runCleanup_clears.
  destruct (resource_load_frame (keyMemo key) (set_memo (keyMemo key) s))
    as (_ & _ & _ & _ & Hc & Hl & Hv).
  intros l Hin. rewrite Hl in Hin. rewrite Hc, Hv. exact (Hown l Hin).
Qed.

Lemma handle_invariant e s :
  owned s /\ oneSet' s ->
  owned (state_of (handle' e s)) /\ oneSet' (state_of (handle' e s)).
Proof.
  intros Hinv.
  destruct e as [key|k d|now now'| |b|v| | |r|].
  2-9: eapply sameBinding_invariant; [|exact Hinv];
       apply handle_frame; intros; discriminate.
  - simpl. destruct (decide (keyMemo key = memo s)) as [Heq|Hne].
    + rewrite keyChanged_same by assumption. exact Hinv.
    + rewrite keyChanged_run by assumption. unfold state_of at 1 5. simpl.
      apply effect_invariant. apply keyChanged_live_cleared. apply Hinv.
  - simpl. apply empty_invariant. apply localUnsubscribe_clears. apply Hinv.
Qed.

(** Every state an instance can be in has at most one subscription set,
    the one of its current key, and every listener of it is held by one
    of the six variables. *)
Lemma reachable_invariant s :
  reachable options contextOptions hasWindow settle s -> owned s /\ oneSet' s.
Proof.
  induction 1 as [now key | s e _ IH].
  - apply created_invariant.
  - apply handle_invariant. exact IH.
Qed.

(** ** What a subscription set holds *)

Lemma subscriptionSet_key k n (l : Listener) :
  l ∈ subscriptionSet options contextOptions hasWindow k n ->
  boundKey l = k /\ forall k' ev, target l = OnCache k' ev -> k' = k.
Proof.
  unfold subscriptionSet.
  destruct (refetchOnFocus options contextOptions && hasWindow);
    destruct (refetchOnConnect options contextOptions && hasWindow);
    simpl; intros Hl;
    repeat (apply elem_of_cons in Hl as [->|Hl]);
    try (apply elem_of_nil in Hl; contradiction); simpl;
    (split; [reflexivity | intros k' ev; congruence]).
Qed.

Lemma subscriptionSet_listens k n ev :
  exists l, l ∈ subscriptionSet options contextOptions hasWindow k n
            /\ target l = OnCache k ev.
Proof.
  unfold subscriptionSet. destruct ev.
  - eexists. split; [apply elem_of_cons; left; reflexivity | reflexivity].
  - eexists. split; [do 1 (apply elem_of_cons; right);
                     apply elem_of_cons; left; reflexivity | reflexivity].
  - eexists. split; [do 2 (apply elem_of_cons; right);
                     apply elem_of_cons; left; reflexivity | reflexivity].
  - eexists. split; [do 3 (apply elem_of_cons; right);
                     apply elem_of_cons; left; reflexivity | reflexivity].
Qed.

(** A cache event of the bound key finds a listener. *)
Lemma bound_listens s k ev :
  oneSet' s -> live s <> [] -> active (memo s) = Some k ->
  filter (fun l => listens (OnCache k ev) l) (live s) <> [].
Proof.
  intros [Hnil | (k' & n & Hk & Hl)] Hne Hact; [contradiction|].
  assert (k' = k) as -> by congruence.
  destruct (subscriptionSet_listens k n ev) as (l & Hin & Ht).
  intros Hf.
  assert (l ∈ filter (fun l => listens (OnCache k ev) l) (live s)) as Hmem.
  { apply list_elem_of_filter. split; [|rewrite Hl; assumption].
    unfold listens. apply bool_decide_pack. assumption. }
  rewrite Hf in Hmem. apply elem_of_nil in Hmem. contradiction.
Qed.

(** A cache event of another key finds none. *)
Lemma other_key_listens s k ev :
  oneSet' s -> memo s <> KString k ->
  filter (fun l => listens (OnCache k ev) l) (live s) = [].
Proof.
  intros Hone Hne. apply elem_of_nil_inv. intros l Hl.
  apply list_elem_of_filter in Hl as [Hp Hin].
  unfold listens in Hp. apply bool_decide_unpack in Hp.
  destruct Hone as [Hnil | (k' & n & Hk & Hlive)].
  - rewrite Hnil in Hin. apply elem_of_nil in Hin. contradiction.
  - rewrite Hlive in Hin.
    destruct (subscriptionSet_key _ _ _ Hin) as [_ Hkey].
    specialize (Hkey k ev Hp). subst k'.
    apply active_string in Hk. contradiction.
Qed.

(** ** The refetching flag under the handlers *)

Lemma handler_flag d s :
  isRefetching (state_of (handler options contextOptions d s)) =
    match d with
    | DMutated _ => isRefetching s
    | DRefetching _ => true
    | DResolved | DError => false
    end.
Proof.
  destruct d; unfold handler, bind, modify, read; simpl;
    rewrite ?through_transition_run; try reflexivity.
  destruct (loading s); rewrite ?through_transition_run; reflexivity.
Qed.

Lemma forEach_handler_flag d (ls : list Listener) s :
  ls <> [] ->
  isRefetching (state_of (forEach ls (fun _ => handler options contextOptions d) s)) =
    match d with
    | DMutated _ => isRefetching s
    | DRefetching _ => true
    | DResolved | DError => false
    end.
Proof.
  revert s. induction ls as [|l ls IH]; intros s Hne; [contradiction|].
  simpl. rewrite (bind_returns _ _ _ tt) by apply handler_frame.
  unfold state_of at 1. simpl.
  destruct ls as [|l' ls'].
  - simpl. unfold state_of at 1. simpl. apply handler_flag.
  - rewrite IH by discriminate. rewrite handler_flag. destruct d; reflexivity.
Qed.

Lemma subscriptionEffect_flag s :
  isRefetching (state_of (subscriptionEffect' s)) = false.
Proof.
  destruct (active (memo s)) as [k|] eqn:H.
  - apply (subscriptionEffect_active s k H).
  - rewrite subscriptionEffect_inactive by assumption. reflexivity.
Qed.

Lemma dispatch_flag s k d :
  oneSet' s -> live s <> [] -> active (memo s) = Some k ->
  isRefetching (state_of (handle' (EvCache k d) s)) =
    match d with
    | DMutated _ => isRefetching s
    | DRefetching _ => true
    | DResolved | DError => false
    end.
Proof.
  intros Hone Hne Hact. simpl. unfold dispatch. rewrite read_bind.
  apply forEach_handler_flag. apply bound_listens; assumption.
Qed.

(** ** Teardown before setup *)

(** A pending cleanup calls the handle of every variable. *)
Lemma runCleanup_calls s x u :
  cleanup s = true -> vars s x = Some u ->
  OpUnsubscribe u ∈ trace_of (runCleanup s).
Proof.
  intros Hc Hu. rewrite runCleanup_run, Hc, localUnsubscribe_run.
  rewrite trace_of_run. simpl. rewrite !app_nil_r, !elem_of_app.
  unfold traceVar. simpl. destruct x; rewrite Hu; rewrite elem_of_cons; tauto.
Qed.

Lemma runCleanup_invokes s (l : Listener) :
  owned s -> l ∈ live s ->
  OpUnsubscribe (UnsubCache (lid l)) ∈ trace_of (runCleanup s)
  \/ OpUnsubscribe (UnsubWindow (lid l)) ∈ trace_of (runCleanup s).
Proof.
  intros Hown Hin. destruct (Hown l Hin) as [Hc [x [Hx|Hx]]];
    [left | right]; apply (runCleanup_calls s x); assumption.
Qed.

(** C7.  In every state an instance can reach, at most one subscription
    set is registered and it is the set of the current key; an event of
    any other key reaches no handler; and a change of the key first calls
    the unsubscribe handle of every registered listener and only then
    subscribes for the new key: no listener of the previous key is
    registered afterwards and every registered one belongs to the new
    key. *)
Theorem C7_teardown_before_setup s :
  reachable options contextOptions hasWindow settle s ->
  oneSet' s /\
  (forall k d, memo s <> KString k ->
     handle' (EvCache k d) s = (Returns tt, s, [])) /\
  (forall key, keyMemo key <> memo s ->
     let r := handle' (EvKey key) s in
     oneSet' (state_of r) /\
     (forall l, l ∈ live s -> l ∉ live (state_of r)) /\
     (forall l, l ∈ live (state_of r) -> keyMemo key = KString (boundKey l)) /\
     exists t_load t_down t_up,
       trace_of r = t_load ++ t_down ++ t_up /\
       Forall (fun o => is_subscribe o = false /\ is_unsubscribe o = false) t_load /\
       Forall (fun o => is_unsubscribe o = true) t_down /\
       Forall (fun o => is_subscribe o = true) t_up /\
       (forall l, l ∈ live s ->
          OpUnsubscribe (UnsubCache (lid l)) ∈ t_down
          \/ OpUnsubscribe (UnsubWindow (lid l)) ∈ t_down) /\
       (cleanup s = true ->
        forall x u, vars s x = Some u -> OpUnsubscribe u ∈ t_down)).
Proof.
  intros Hreach. destruct (reachable_invariant s Hreach) as [Hown Hone].
  split; [exact Hone|]. split.
  - intros k d Hne. simpl. unfold dispatch. rewrite read_bind.
    rewrite other_key_listens by assumption. reflexivity.
  - intros key Hne r.
    pose proof (reachable_invariant _
                  (reachable_step _ _ _ _ s (EvKey key) Hreach)) as [_ Hone'].
    fold r in Hone'.
    assert (forall l, l ∈ live (state_of r) ->
                      keyMemo key = KString (boundKey l)) as Hnew.
    { intros l Hl. destruct Hone' as [Hnil | (k & n & Hk & Hlive)].
      - rewrite Hnil in Hl. apply elem_of_nil in Hl. contradiction.
      - rewrite Hlive in Hl.
        destruct (subscriptionSet_key _ _ _ Hl) as [-> _].
        apply active_string in Hk. rewrite <- Hk.
        subst r. simpl. rewrite keyChanged_run by assumption.
        unfold state_of at 1. simpl.
        set (s1 := state_of (resource_load' (keyMemo key)
                               (set_memo (keyMemo key) s))).
        set (s2 := state_of (runCleanup s1)).
        assert (memo (state_of (subscriptionEffect' s2)) = memo s2) as ->.
        { destruct (active (memo s2)) as [k'|] eqn:H2.
          - apply (subscriptionEffect_active s2 k' H2).
          - rewrite subscriptionEffect_inactive by assumption. reflexivity. }
        subst s2. rewrite (proj1 (runCleanup_frame s1)).
        subst s1. rewrite (proj1 (resource_load_frame _ _)). reflexivity. }
    split; [exact Hone'|]. split; [|split; [exact Hnew|]].
    + intros l Hold Hnow. apply Hnew in Hnow.
      destruct Hone as [Hnil | (k & n & Hk & Hlive)].
      * rewrite Hnil in Hold. apply elem_of_nil in Hold. contradiction.
      * rewrite Hlive in Hold.
        destruct (subscriptionSet_key _ _ _ Hold) as [Hb _].
        apply active_string in Hk. congruence.
    + subst r. simpl. rewrite keyChanged_run by assumption.
      unfold trace_of at 1. simpl.
      eexists _, _, _. split; [reflexivity|].
      destruct (resource_load_frame (keyMemo key) (set_memo (keyMemo key) s))
        as (_ & _ & _ & _ & Hc & Hl' & Hv).
      split; [|split; [apply runCleanup_trace|split;
                        [apply subscriptionEffect_trace|split]]].
      * rewrite resource_load_run.
        destruct (keyMemo key); unfold trace_of; simpl; repeat constructor.
      * intros l Hl. apply runCleanup_invokes.
        -- intros l0 Hin. rewrite Hl' in Hin. rewrite Hc, Hv. exact (Hown l0 Hin).
        -- rewrite Hl'. exact Hl.
      * intros Hcl x u Hu. apply (runCleanup_calls _ x).
        -- rewrite Hc. exact Hcl.
        -- rewrite Hv. exact Hu.
Qed.

(** ** The key memo *)

(** C2, as the code has it: when the accessor throws the memoized key is
    [null]; when it returns [false] or [undefined] the memoized key is
    that very value, not [null]; in each case the key is not a string, no
    guard lets it through, and neither the creation of the instance nor a
    later re-evaluation invokes a cache operation (a re-evaluation only
    calls the unsubscribe handles of the previous key, and nothing at all
    when no cleanup is pending), and the snapshot and the ticks of
    [createStale] do not ask the cache for an expiration. *)
Theorem C2_no_key key :
  (exists e, key = Threw e) \/ key = Returned KFalse \/ key = Returned KUndefined ->
  ((exists e, key = Threw e) -> keyMemo key = KNull) /\
  (key = Returned KFalse -> keyMemo key = KFalse) /\
  (key = Returned KUndefined -> keyMemo key = KUndefined) /\
  is_string (keyMemo key) = false /\
  falsy (keyMemo key) = true /\
  (forall now,
      trace_of (createTurboResource options contextOptions hasWindow now key) = []) /\
  (forall s,
      Forall (fun o => is_cache_op o = false) (trace_of (handle' (EvKey key) s))) /\
  (forall s, cleanup s = false -> trace_of (handle' (EvKey key) s) = []) /\
  (forall expiration now sig,
      snd (initialStale expiration now (keyMemo key)) = [] /\
      snd (staleTick expiration now (keyMemo key) sig) = []).
Proof.
  intros Hkey.
  assert (is_string (keyMemo key) = false) as Hns.
  { destruct Hkey as [[e ->]|[->| ->]]; reflexivity. }
  pose proof (not_string_inactive _ Hns) as Hina.
  assert (forall s, resource_load' (keyMemo key) s = (Returns tt, s, [])) as Hload.
  { intros s. rewrite resource_load_run. destruct (keyMemo key); [discriminate|..];
      reflexivity. }
  split; [intros [e ->]; reflexivity|].
  split; [intros ->; reflexivity|].
  split; [intros ->; reflexivity|].
  split; [exact Hns|]. split; [apply falsy_active; exact Hina|].
  split; [|split; [|split]].
  4: { intros expiration now sig. unfold initialStale, staleTick.
       rewrite Hina. split; reflexivity. }
  - intros now. rewrite created_run. simpl. rewrite Hload.
    unfold state_of at 1. simpl.
    rewrite subscriptionEffect_inactive by exact Hina. reflexivity.
  - intros s. simpl. destruct (decide (keyMemo key = memo s)) as [Heq|Hne].
    + rewrite keyChanged_same by assumption. constructor.
    + rewrite keyChanged_run by assumption. rewrite Hload.
      unfold trace_of at 1 2, state_of at 2. simpl.
      rewrite subscriptionEffect_inactive
        by (rewrite (proj1 (runCleanup_frame _)); exact Hina).
      unfold trace_of at 2. simpl. rewrite app_nil_r.
      eapply Forall_impl; [apply runCleanup_trace|].
      intros [] Hu; simpl in *; congruence.
  - intros s Hc. simpl. destruct (decide (keyMemo key = memo s)) as [Heq|Hne].
    + rewrite keyChanged_same by assumption. reflexivity.
    + rewrite keyChanged_run by assumption. rewrite Hload.
      unfold trace_of at 1 2, state_of at 2. simpl.
      rewrite subscriptionEffect_inactive
        by (rewrite (proj1 (runCleanup_frame _)); exact Hina).
      rewrite runCleanup_run. simpl. rewrite Hc. reflexivity.
Qed.

(** ** The loader *)

Lemma spread_lookup b i :
  spread b contextOptions options !! i =
    match spread_entries options !! i with
    | Some v => Some v
    | None =>
        match spread_entries contextOptions !! i with
        | Some v => Some v
        | None => if decide (i = "stale"%string) then Some (QBool b) else None
        end
    end.
Proof.
  unfold spread. rewrite !lookup_union.
  destruct (decide (i = "stale"%string)) as [->|Hne].
  - rewrite lookup_singleton_eq.
    destruct (spread_entries options !! "stale"%string);
      destruct (spread_entries contextOptions !! "stale"%string); reflexivity.
  - rewrite lookup_singleton_ne by congruence.
    destruct (spread_entries options !! i);
      destruct (spread_entries contextOptions !! i); reflexivity.
Qed.

(** ** The actions without a key *)

(** C8.  While the memoized key is not a string, [mutate], [refetch],
    [forget] and [abort] return without a call to the cache or to the
    host and leave the instance as it was; none throws, and the promise
    of [refetch] is fulfilled with [undefined]. *)
Theorem C8_no_key_actions s value reason :
  is_string (memo s) = false ->
  localMutate value s = (Returns tt, s, []) /\
  localRefetch' s = (Returns (Fulfilled None), s, []) /\
  localForget s = (Returns tt, s, []) /\
  localAbort reason s = (Returns tt, s, []).
Proof.
  intros H. apply not_string_inactive in H.
  rewrite localMutate_run, localRefetch_run, localForget_run, localAbort_run, H.
  repeat split.
Qed.

(** ** Errors of a refetch *)

(** C9.  With an active key [k], [refetch()] issues one fetch for [k],
    hands its promise to the resource cell and awaits it; when that
    promise is rejected with [e], the promise of [refetch()] is rejected
    with the same [e].  The fetch's promise is the one named [next s]. *)
Theorem C9_refetch_rejection s k e :
  active (memo s) = Some k ->
  settle (next s) = Rejected e ->
  localRefetch' s
  = (Returns (Rejected e), set_next (S (next s)) s,
     [ OpQuery k (spread false contextOptions options) (next s);
       commitOp options contextOptions (CellRefetch (next s)) ]).
Proof.
  intros Hk He. rewrite localRefetch_run, Hk, He. reflexivity.
Qed.

(** ** The focus trigger *)

Lemma forEach_single {A} (f : A -> M unit) (a : A) s :
  result_of (f a s) = Returns tt -> forEach [a] f s = f a s.
Proof.
  intros H. simpl. rewrite (bind_returns _ _ _ tt) by assumption.
  unfold ret, result_of, state_of, trace_of in *. simpl.
  destruct (f a s) as [[o s1] t1]. simpl in *. subst o.
  rewrite app_nil_r. reflexivity.
Qed.

Lemma focus_listener s :
  oneSet' s -> live s <> [] ->
  refetchOnFocus options contextOptions && hasWindow = true ->
  exists l, filter (fun l => listens (OnWindow focus) l) (live s) = [l].
Proof.
  intros [Hnil | (k & n & _ & Hl)] Hne Hf; [contradiction|].
  rewrite Hl. unfold subscriptionSet. rewrite Hf.
  destruct (refetchOnConnect options contextOptions && hasWindow);
    eexists; reflexivity.
Qed.

Lemma focus_run now now' s k :
  oneSet' s -> live s <> [] ->
  refetchOnFocus options contextOptions && hasWindow = true ->
  active (memo s) = Some k ->
  handle' (EvFocus now now') s =
    if bool_decide (focusInterval options contextOptions < now - lastFocus s)
    then (Returns tt, set_next (S (next s)) (setLastFocus now' s),
          [ OpQuery k (spread false contextOptions options) (next s);
            commitOp options contextOptions (CellRefetch (next s)) ])
    else (Returns tt, s, []).
Proof.
  intros Hone Hne Hf Hk. simpl. unfold windowFocus. rewrite read_bind.
  destruct (focus_listener s Hone Hne Hf) as [l ->].
  rewrite forEach_single by apply rawHandler_frame.
  rewrite rawHandler_run. destruct (bool_decide _); [|reflexivity].
  rewrite refetchListener_run, localRefetch_run. simpl. rewrite Hk. reflexivity.
Qed.

Lemma subscriptionEffect_lastFocus s :
  lastFocus (state_of (subscriptionEffect' s)) = lastFocus s.
Proof.
  destruct (active (memo s)) as [k|] eqn:H.
  - apply (subscriptionEffect_active s k H).
  - rewrite subscriptionEffect_inactive by assumption. reflexivity.
Qed.

Lemma handler_lastFocus d s :
  result_of (handler options contextOptions d s) = Returns tt /\
  lastFocus (state_of (handler options contextOptions d s)) = lastFocus s.
Proof.
  split; [apply handler_frame|].
  destruct d; unfold handler, bind, modify, read; simpl;
    rewrite ?through_transition_run; try reflexivity.
  destruct (loading s); rewrite ?through_transition_run; reflexivity.
Qed.

(** Only a focus event moves the timestamp. *)
Lemma lastFocus_frame e s :
  (forall now now', e <> EvFocus now now') ->
  lastFocus (state_of (handle' e s)) = lastFocus s.
Proof.
  intros He. destruct e as [key|k d|now now'| |b|v| | |r|]; simpl.
  - destruct (decide (keyMemo key = memo s)) as [Heq|Hne].
    + rewrite keyChanged_same by assumption. reflexivity.
    + rewrite keyChanged_run by assumption. unfold state_of at 1. simpl.
      rewrite subscriptionEffect_lastFocus.
      rewrite (proj1 (proj2 (proj2 (runCleanup_frame _)))).
      rewrite (proj1 (proj2 (proj2 (resource_load_frame _ _)))). reflexivity.
  - unfold dispatch. rewrite read_bind.
    apply (forEach_frame (fun s s' => lastFocus s' = lastFocus s));
      [reflexivity | intros; congruence |].
    intros _ s0. apply handler_lastFocus.
  - destruct (He now now'). reflexivity.
  - unfold windowOnline. rewrite read_bind.
    apply (forEach_frame (fun s s' => lastFocus s' = lastFocus s));
      [reflexivity | intros; congruence |].
    intros _ s0. split; [apply refetchListener_frame|].
    rewrite refetchListener_run. unfold state_of at 1. simpl.
    apply localRefetch_frame.
  - reflexivity.
  - rewrite localMutate_run. destruct (active (memo s)); reflexivity.
  - unfold bind. rewrite localRefetch_run. destruct (active (memo s)); reflexivity.
  - rewrite localForget_run. destruct (active (memo s)); reflexivity.
  - rewrite localAbort_run. destruct (active (memo s)); reflexivity.
  - apply (localUnsubscribe_frame s).
Qed.

Lemma refetches_app t1 t2 : refetches (t1 ++ t2) = (refetches t1 + refetches t2)%nat.
Proof. unfold refetches. rewrite filter_app, length_app. reflexivity. Qed.

Lemma refetches_refetch k o p c :
  refetches [OpQuery k o p; commitOp options contextOptions c] = 1%nat.
Proof.
  unfold refetches, commitOp.
  destruct (transition options contextOptions); reflexivity.
Qed.

Lemma created_lastFocus now key :
  lastFocus (state_of (createTurboResource options contextOptions hasWindow now key))
  = now.
Proof.
  rewrite created_run. unfold state_of at 1. simpl.
  rewrite subscriptionEffect_lastFocus.
  rewrite (proj1 (proj2 (proj2 (resource_load_frame _ _)))). reflexivity.
Qed.

(** C3, as the code has it.  The timestamp starts as the time of
    creation and only a focus event moves it.  With the focus trigger
    registered and [T] the focus interval, a raw focus event is accepted
    exactly when the clock is more than [T] past the timestamp: then the
    timestamp becomes the second clock reading and [refetch()] runs once;
    otherwise the event changes nothing.  Two events at most [T] apart
    make at most one refetch; two events make two refetches when the
    first is accepted and the second comes more than [T] after the
    timestamp the first recorded. *)
Theorem C3_focus_throttle s k :
  reachable options contextOptions hasWindow settle s ->
  active (memo s) = Some k -> live s <> [] ->
  refetchOnFocus options contextOptions && hasWindow = true ->
  let T := focusInterval options contextOptions in
  let run es := handleAll options contextOptions hasWindow settle es s in
  (forall now key,
      lastFocus (state_of (createTurboResource options contextOptions hasWindow
                                               now key)) = now) /\
  (forall e, (forall now now', e <> EvFocus now now') ->
      lastFocus (state_of (handle' e s)) = lastFocus s) /\
  (forall now now',
      (T < now - lastFocus s ->
       lastFocus (state_of (handle' (EvFocus now now') s)) = now' /\
       refetches (trace_of (handle' (EvFocus now now') s)) = 1%nat) /\
      (now - lastFocus s <= T ->
       handle' (EvFocus now now') s = (Returns tt, s, []))) /\
  (forall n1 n1' n2 n2',
      n1 <= n1' -> n2 - n1 <= T ->
      (refetches (trace_of (run [EvFocus n1 n1'; EvFocus n2 n2'])) <= 1)%nat) /\
  (forall n1 n1' n2 n2',
      T < n1 - lastFocus s -> T < n2 - n1' ->
      refetches (trace_of (run [EvFocus n1 n1'; EvFocus n2 n2'])) = 2%nat).
Proof.
  intros Hreach Hk Hlive Hf T run.
  destruct (reachable_invariant s Hreach) as [Hown Hone].
  assert (forall n1 n1' n2 n2',
            run [EvFocus n1 n1'; EvFocus n2 n2'] =
            let r1 := handle' (EvFocus n1 n1') s in
            let r2 := handle' (EvFocus n2 n2') (state_of r1) in
            (Returns tt, state_of r2, trace_of r1 ++ trace_of r2)) as Hrun.
  { intros n1 n1' n2 n2'. unfold run, handleAll. cbn [forEach].
    rewrite (bind_returns _ _ _ tt)
      by (apply handle_frame; intros; discriminate).
    rewrite (bind_returns _ _ _ tt)
      by (apply handle_frame; intros; discriminate).
    unfold ret, result_of, state_of, trace_of. simpl.
    rewrite app_nil_r. reflexivity. }
  assert (forall n1 n1',
            let s1 := state_of (handle' (EvFocus n1 n1') s) in
            oneSet' s1 /\ live s1 <> [] /\ active (memo s1) = Some k) as Hnext.
  { intros n1 n1' s1.
    destruct (handle_frame (EvFocus n1 n1') s) as [_ (Hm & Hv & Hc & Hl)];
      [intros; discriminate | discriminate |].
    fold s1 in Hm, Hl. rewrite Hm, Hl. repeat split; try assumption.
    apply (reachable_invariant _
             (reachable_step _ _ _ _ s (EvFocus n1 n1') Hreach)). }
  split; [apply created_lastFocus|].
  split; [intros e He; apply lastFocus_frame; exact He|].
  split; [|split].
  - intros now now'. rewrite (focus_run now now' s k) by assumption. fold T.
    split; intros H.
    + rewrite bool_decide_eq_true_2 by assumption.
      split; [reflexivity | apply refetches_refetch].
    + rewrite bool_decide_eq_false_2 by lia. reflexivity.
  - intros n1 n1' n2 n2' Hmono Hnear. rewrite Hrun. cbv zeta.
    rewrite trace_of_run, refetches_app.
    destruct (Hnext n1 n1') as (Hone1 & Hlive1 & Hk1).
    rewrite (focus_run n2 n2' _ k) by assumption.
    rewrite (focus_run n1 n1' s k) by assumption. fold T.
    destruct (bool_decide (T < n1 - lastFocus s)) eqn:H1.
    + rewrite state_of_run. cbn [lastFocus set_next setLastFocus].
      apply bool_decide_eq_true_1 in H1.
      rewrite bool_decide_eq_false_2 by lia.
      rewrite !trace_of_run, refetches_refetch. reflexivity.
    + rewrite state_of_run.
      destruct (bool_decide (T < n2 - lastFocus s));
        rewrite !trace_of_run, ?refetches_refetch; unfold refetches; simpl; lia.
  - intros n1 n1' n2 n2' H1 H2. rewrite Hrun. cbv zeta.
    rewrite trace_of_run, refetches_app.
    destruct (Hnext n1 n1') as (Hone1 & Hlive1 & Hk1).
    rewrite (focus_run n2 n2' _ k) by assumption.
    rewrite (focus_run n1 n1' s k) by assumption. fold T.
    rewrite (bool_decide_eq_true_2 (T < n1 - lastFocus s)) by assumption.
    rewrite state_of_run. cbn [lastFocus set_next setLastFocus].
    rewrite bool_decide_eq_true_2 by assumption.
    rewrite !trace_of_run, !refetches_refetch. reflexivity.
Qed.

(** * Further properties of the code *)

(** ** [unsubscribe()] *)

Lemma set_live_same s : set_live (live s) s = s.
Proof. destruct s. reflexivity. Qed.

Lemma afterVar_empty x s : live s = [] -> afterVar x s = s.
Proof.
  intros H. unfold afterVar, remove_listener.
  destruct (vars s x) as [[id|id|]|]; try reflexivity;
    destruct s; simpl in *; subst; reflexivity.
Qed.

Lemma localUnsubscribe_empty s :
  live s = [] -> state_of (localUnsubscribe s) = s.
Proof.
  intros H. rewrite localUnsubscribe_run, state_of_run. simpl.
  rewrite (afterVar_empty unsubscribeMutations s H).
  rewrite (afterVar_empty unsubscribeRefetching s H).
  rewrite (afterVar_empty unsubscribeFocusRefetch s H).
  rewrite (afterVar_empty unsubscribeConnectRefetch s H).
  rewrite (afterVar_empty unsubscribeResolved s H).
  apply afterVar_empty. exact H.
Qed.

(** Without a registered listener no cache or window event does anything. *)
Lemma no_listener_no_effect s :
  live s = [] ->
  (forall k d, handle' (EvCache k d) s = (Returns tt, s, [])) /\
  (forall now now', handle' (EvFocus now now') s = (Returns tt, s, [])) /\
  handle' EvOnline s = (Returns tt, s, []).
Proof.
  intros H. repeat split; intros; simpl;
    unfold dispatch, windowFocus, windowOnline;
    rewrite read_bind, H; reflexivity.
Qed.

(** After [unsubscribe()] the instance keeps its key and its flag but no
    listener is registered any more, and no cache event, focus event or
    online event reaches it: each leaves the instance as it is and makes
    no call. *)
Theorem unsubscribe_detaches s :
  reachable options contextOptions hasWindow settle s ->
  let s' := state_of (handle' EvUnsubscribe s) in
  live s' = [] /\ memo s' = memo s /\ isRefetching s' = isRefetching s /\
  (forall k d, handle' (EvCache k d) s' = (Returns tt, s', [])) /\
  (forall now now', handle' (EvFocus now now') s' = (Returns tt, s', [])) /\
  handle' EvOnline s' = (Returns tt, s', []).
Proof.
  intros Hreach s'.
  assert (live s' = []) as Hl
    by (apply localUnsubscribe_clears, (reachable_invariant s Hreach)).
  destruct (localUnsubscribe_frame s) as (Hm & Hf & _).
  split; [exact Hl|]. split; [exact Hm|]. split; [exact Hf|].
  apply no_listener_no_effect. exact Hl.
Qed.

(** [unsubscribe()] is idempotent: a second call leaves the instance
    exactly as the first call left it; it calls the same handles again,
    since the variables still hold them. *)
Theorem unsubscribe_idempotent s :
  reachable options contextOptions hasWindow settle s ->
  let r1 := handle' EvUnsubscribe s in
  let r2 := handle' EvUnsubscribe (state_of r1) in
  result_of r2 = Returns tt /\
  state_of r2 = state_of r1 /\
  trace_of r2 = trace_of r1.
Proof.
  intros Hreach r1 r2. subst r1 r2. simpl.
  assert (live (state_of (localUnsubscribe s)) = []) as Hl
    by (apply localUnsubscribe_clears, (reachable_invariant s Hreach)).
  split; [rewrite localUnsubscribe_run; reflexivity|].
  split; [apply localUnsubscribe_empty; exact Hl|].
  pose proof (proj2 (proj2 (proj2 (proj2 (proj2 (proj2
                (localUnsubscribe_frame s))))))) as Hv. simpl in Hv.
  rewrite (localUnsubscribe_run (state_of _)), trace_of_run.
  unfold traceVar at 1. simpl. rewrite Hv.
  rewrite (localUnsubscribe_run s), trace_of_run. reflexivity.
Qed.

(** ** What a change of the key registers *)

Lemma subscriptionSet_length k n :
  length (subscriptionSet options contextOptions hasWindow k n)
  = (4 + (if refetchOnFocus options contextOptions && hasWindow then 1 else 0)
       + (if refetchOnConnect options contextOptions && hasWindow then 1 else 0))%nat.
Proof.
  unfold subscriptionSet.
  destruct (refetchOnFocus options contextOptions && hasWindow);
    destruct (refetchOnConnect options contextOptions && hasWindow); reflexivity.
Qed.

(** A change of the key to an active key [k] makes, in this order, one
    load of [k] with the loader's options, the teardown of whatever was
    registered, and the registrations of [k]; afterwards exactly the
    subscription set of [k] is registered (four cache subscriptions and a
    window listener per enabled trigger), whatever happened before, a
    call of [unsubscribe()] included.  A change to a key that is not
    active registers nothing. *)
Theorem key_change_registers s key :
  reachable options contextOptions hasWindow settle s ->
  keyMemo key <> memo s ->
  let r := handle' (EvKey key) s in
  (forall k, active (keyMemo key) = Some k ->
     live (state_of r)
       = subscriptionSet options contextOptions hasWindow k (S (next s)) /\
     cleanup (state_of r) = true /\
     exists t_down,
       Forall (fun o => is_unsubscribe o = true) t_down /\
       trace_of r
       = OpQuery k (spread true contextOptions options) (next s)
         :: t_down
         ++ setupTrace options contextOptions hasWindow k (S (next s))) /\
  (active (keyMemo key) = None ->
     live (state_of r) = [] /\ cleanup (state_of r) = false /\
     Forall (fun o => is_subscribe o = false) (trace_of r)).
Proof.
  intros Hreach Hne r. subst r. simpl.
  destruct (reachable_invariant s Hreach) as [Hown _].
  rewrite keyChanged_run by assumption. cbv zeta.
  rewrite state_of_run, trace_of_run.
  pose proof (keyChanged_live_cleared key s Hown) as Hclear.
  pose proof (resource_load_run (keyMemo key) (set_memo (keyMemo key) s)) as Hload.
  pose proof (resource_load_frame (keyMemo key) (set_memo (keyMemo key) s))
    as (Hm1 & _). cbv zeta in Hm1.
  set (r1 := resource_load' (keyMemo key) (set_memo (keyMemo key) s)) in *.
  pose proof (runCleanup_frame (state_of r1))
    as (Hm2 & _ & _ & _ & Hc2 & Hn2 & _). cbv zeta in Hm2, Hc2, Hn2.
  pose proof (runCleanup_trace (state_of r1)) as Hdown.
  set (r2 := runCleanup (state_of r1)) in *.
  rewrite Hm1 in Hm2. change (memo (set_memo (keyMemo key) s)) with (keyMemo key) in Hm2.
  split.
  - intros k Hk.
    rewrite (active_string _ _ Hk) in Hload.
    assert (next (state_of r2) = S (next s)) as Hn by (rewrite Hn2, Hload; reflexivity).
    assert (trace_of r1 = [OpQuery k (spread true contextOptions options) (next s)])
      as Ht1 by (rewrite Hload; reflexivity).
    clearbody r2 r1.
    assert (active (memo (state_of r2)) = Some k) as Hk2 by (rewrite Hm2; exact Hk).
    destruct (subscriptionEffect_active (state_of r2) k Hk2)
      as (_ & Htr & _ & _ & _ & _ & Hc & Hl & _).
    rewrite Hclear, Hn, app_nil_l in Hl. rewrite Hn in Htr.
    split; [exact Hl|]. split; [exact Hc|].
    exists (trace_of r2). split; [exact Hdown|].
    rewrite Ht1, Htr. reflexivity.
  - intros Hk.
    assert (Forall (fun o => is_subscribe o = false) (trace_of r1)) as Ht1.
    { rewrite Hload. destruct (keyMemo key); rewrite trace_of_run; repeat constructor. }
    clearbody r2 r1.
    assert (active (memo (state_of r2)) = None) as Hk2 by (rewrite Hm2; exact Hk).
    rewrite (subscriptionEffect_inactive (state_of r2) Hk2), state_of_run, trace_of_run.
    split; [exact Hclear|]. split; [exact Hc2|].
    rewrite app_nil_r. apply Forall_app. split; [exact Ht1|].
    eapply Forall_impl; [exact Hdown|].
    intros [] Hu; simpl in *; congruence.
Qed.

(** ** Triggers that are switched off, and the connect trigger *)

Lemma focus_listener_none s :
  oneSet' s -> refetchOnFocus options contextOptions && hasWindow = false ->
  filter (fun l => listens (OnWindow focus) l) (live s) = [].
Proof.
  intros [Hnil | (k & n & _ & Hl)] Hf; rewrite ?Hnil, ?Hl; [reflexivity|].
  unfold subscriptionSet. rewrite Hf.
  destruct (refetchOnConnect options contextOptions && hasWindow); reflexivity.
Qed.

Lemma online_listener_none s :
  oneSet' s -> refetchOnConnect options contextOptions && hasWindow = false ->
  filter (fun l => listens (OnWindow online) l) (live s) = [].
Proof.
  intros [Hnil | (k & n & _ & Hl)] Hf; rewrite ?Hnil, ?Hl; [reflexivity|].
  unfold subscriptionSet. rewrite Hf.
  destruct (refetchOnFocus options contextOptions && hasWindow); reflexivity.
Qed.

Lemma online_listener s :
  oneSet' s -> live s <> [] ->
  refetchOnConnect options contextOptions && hasWindow = true ->
  exists l, filter (fun l => listens (OnWindow online) l) (live s) = [l].
Proof.
  intros [Hnil | (k & n & _ & Hl)] Hne Hf; [contradiction|].
  rewrite Hl. unfold subscriptionSet. rewrite Hf.
  destruct (refetchOnFocus options contextOptions && hasWindow);
    eexists; reflexivity.
Qed.

(** With [refetchOnFocus] off, or without a window, a focus event never
    does anything; with [refetchOnConnect] off, or without a window, an
    online event never does anything.  This holds in every state the
    instance can reach, bound to a key or not. *)
Theorem disabled_trigger_never_refetches s :
  reachable options contextOptions hasWindow settle s ->
  (refetchOnFocus options contextOptions && hasWindow = false ->
   forall now now', handle' (EvFocus now now') s = (Returns tt, s, [])) /\
  (refetchOnConnect options contextOptions && hasWindow = false ->
   handle' EvOnline s = (Returns tt, s, [])).
Proof.
  intros Hreach. destruct (reachable_invariant s Hreach) as [_ Hone]. split.
  - intros Hf now now'. simpl. unfold windowFocus.
    rewrite read_bind, focus_listener_none by assumption. reflexivity.
  - intros Hf. simpl. unfold windowOnline.
    rewrite read_bind, online_listener_none by assumption. reflexivity.
Qed.

(** ** The cache events of the bound key *)

Lemma listens_yes t l : target l = t -> listens t l.
Proof. intros H. unfold listens. apply bool_decide_pack. exact H. Qed.

Lemma listens_no t l : target l <> t -> ~ listens t l.
Proof.
  intros H Hl. unfold listens in Hl. apply bool_decide_unpack in Hl. contradiction.
Qed.

(** Each cache event of the bound key has exactly one listener. *)
Lemma cache_listener s k ev :
  oneSet' s -> live s <> [] -> active (memo s) = Some k ->
  exists l, filter (fun l => listens (OnCache k ev) l) (live s) = [l].
Proof.
  intros [Hnil | (k' & n & Hk' & Hl)] Hne Hk; [contradiction|].
  assert (k' = k) as -> by congruence.
  rewrite Hl. unfold subscriptionSet.
  destruct (refetchOnFocus options contextOptions && hasWindow);
    destruct (refetchOnConnect options contextOptions && hasWindow);
    destruct ev; simpl; eexists;
    repeat first
      [ rewrite filter_nil
      | rewrite filter_cons_True by (apply listens_yes; reflexivity)
      | rewrite filter_cons_False by (apply listens_no; simpl; congruence) ];
    reflexivity.
Qed.

Lemma dispatch_run s k d :
  oneSet' s -> live s <> [] -> active (memo s) = Some k ->
  handle' (EvCache k d) s = handler options contextOptions d s.
Proof.
  intros Hone Hne Hk. simpl. unfold dispatch. rewrite read_bind.
  destruct (cache_listener s k (event_of d) Hone Hne Hk) as [l ->].
  rewrite forEach_single by exact (proj1 (handler_frame d s)). reflexivity.
Qed.

Lemma handler_run d s :
  handler options contextOptions d s =
    match d with
    | DMutated item =>
        (Returns tt, s, [commitOp options contextOptions (CellMutate item)])
    | DRefetching p =>
        (Returns tt, setIsRefetching true s,
         if loading s then []
         else [commitOp options contextOptions (CellRefetch p)])
    | DResolved | DError => (Returns tt, setIsRefetching false s, [])
    end.
Proof.
  destruct d as [item|p| |]; unfold handler; try reflexivity.
  - apply through_transition_run.
  - rewrite modify_bind, read_bind.
    change (loading (setIsRefetching true s)) with (loading s).
    destruct (loading s); [reflexivity | apply through_transition_run].
Qed.

(** A 'mutated' event of the bound key is echoed into the resource cell:
    the item is committed through the resolved transition, in one call,
    without a fetch, and the instance (the refetching flag included) is
    left as it was. *)
Theorem mutated_is_committed s k item :
  reachable options contextOptions hasWindow settle s ->
  active (memo s) = Some k -> live s <> [] ->
  handle' (EvCache k (DMutated item)) s
  = (Returns tt, s, [commitOp options contextOptions (CellMutate item)])
  /\ refetches (trace_of (handle' (EvCache k (DMutated item)) s)) = 0%nat.
Proof.
  intros Hreach Hk Hne. destruct (reachable_invariant s Hreach) as [_ Hone].
  rewrite (dispatch_run s k (DMutated item) Hone Hne Hk), handler_run.
  split; [reflexivity|]. rewrite trace_of_run.
  unfold refetches, commitOp. destruct (transition options contextOptions);
    reflexivity.
Qed.

(** A 'refetching' event of the bound key never makes this layer fetch:
    while the resource cell is loading it only sets the flag; otherwise
    it also hands the event's promise to the cell, and the loader, called
    with that promise, returns it without a call to the cache. *)
Theorem refetching_event_no_second_fetch s k p :
  reachable options contextOptions hasWindow settle s ->
  active (memo s) = Some k -> live s <> [] ->
  let r := handle' (EvCache k (DRefetching p)) s in
  state_of r = setIsRefetching true s /\
  (loading s = true -> trace_of r = []) /\
  (loading s = false ->
   trace_of r = [commitOp options contextOptions (CellRefetch p)]) /\
  loader options contextOptions k (RPromise p) (state_of r)
  = (Returns p, state_of r, []).
Proof.
  intros Hreach Hk Hne r. subst r.
  destruct (reachable_invariant s Hreach) as [_ Hone].
  rewrite (dispatch_run s k (DRefetching p) Hone Hne Hk), handler_run.
  rewrite state_of_run, trace_of_run.
  split; [reflexivity|]. split; [intros ->; reflexivity|].
  split; [intros ->; reflexivity | reflexivity].
Qed.

(** ** The actions follow the key *)

Lemma keyChanged_memo key s :
  memo (state_of (handle' (EvKey key) s)) = keyMemo key.
Proof.
  simpl. destruct (decide (keyMemo key = memo s)) as [Heq|Hne].
  - rewrite keyChanged_same by assumption. symmetry. exact Heq.
  - rewrite keyChanged_run by assumption. cbv zeta. rewrite state_of_run.
    set (s2 := state_of (runCleanup _)).
    assert (memo (state_of (subscriptionEffect' s2)) = memo s2) as ->.
    { destruct (active (memo s2)) as [k'|] eqn:H2.
      - apply (subscriptionEffect_active s2 k' H2).
      - rewrite subscriptionEffect_inactive by assumption. reflexivity. }
    subst s2. rewrite (proj1 (runCleanup_frame _)).
    rewrite (proj1 (resource_load_frame _ _)). reflexivity.
Qed.

(** After the key was re-evaluated to an active key [k], [mutate],
    [forget] and [abort] act on [k], the key of the moment, whatever key
    the instance was created with: each makes exactly one call to the
    cache ([abort] passes its reason on) and leaves the instance, its
    subscriptions included, as it is. *)
Theorem actions_follow_the_key s key k value reason :
  active (keyMemo key) = Some k ->
  let s' := state_of (handle' (EvKey key) s) in
  handle' (EvMutate value) s' = (Returns tt, s', [OpMutate k value]) /\
  handle' EvForget s' = (Returns tt, s', [OpForget k]) /\
  handle' (EvAbort reason) s' = (Returns tt, s', [OpAbort k reason]).
Proof.
  intros Hk s'. pose proof (keyChanged_memo key s) as Hm. fold s' in Hm.
  clearbody s'. simpl.
  rewrite localMutate_run, localForget_run, localAbort_run, Hm, Hk.
  repeat split.
Qed.

(** ** [expiration()] and the snapshot of [createStale] *)

Lemma localExpiration_run expiration s :
  localExpiration expiration s =
    match active (memo s) with
    | None => (Returns None, s, [])
    | Some k => (Returns (expiration k), s, [OpExpiration k])
    end.
Proof.
  unfold localExpiration. rewrite read_bind.
  destruct (active (memo s)); reflexivity.
Qed.

(** [expiration()] answers [undefined] without a call to the cache when
    no key is active and otherwise passes the cache's answer on; and the
    first values of [createStale] are a function of that answer:
    [undefined] gives "stale, nothing left", an expiration [E] gives
    "stale exactly when [E < now]" and [max 0 (E - now)] left. *)
Theorem expiration_and_snapshot expiration now s :
  (active (memo s) = None ->
   localExpiration expiration s = (Returns None, s, [])) /\
  (forall k, active (memo s) = Some k ->
   localExpiration expiration s = (Returns (expiration k), s, [OpExpiration k])) /\
  (result_of (localExpiration expiration s) = Returns None ->
   fst (initialStale expiration now (memo s)) = mkStale true 0) /\
  (forall E, result_of (localExpiration expiration s) = Returns (Some E) ->
   fst (initialStale expiration now (memo s))
   = mkStale (bool_decide (E < now)) (Z.max 0 (E - now))).
Proof.
  rewrite localExpiration_run. unfold initialStale.
  destruct (active (memo s)) as [k|]; rewrite ?result_of_run.
  - split; [discriminate|]. split; [intros k' [= <-]; reflexivity|].
    destruct (expiration k) as [E'|]; split; try discriminate; try reflexivity.
    intros E [= <-]. simpl. f_equal. case_bool_decide; lia.
  - split; [reflexivity|]. split; [discriminate|].
    split; [reflexivity | discriminate].
Qed.

(** ** The empty key *)

(** The empty string is a string for the host and no key for this layer:
    created with it, the instance loads it once (the loader is run with
    the empty key) but registers no listener and no cleanup; and while it
    is the key, [mutate], [refetch], [forget], [abort] and [expiration]
    return without a call, [refetch] with a promise of [undefined]. *)
Theorem empty_string_key now expiration value reason :
  let r := createTurboResource options contextOptions hasWindow now
                               (Returned (KString EmptyString)) in
  trace_of r = [OpQuery EmptyString (spread true contextOptions options) 0%nat] /\
  live (state_of r) = [] /\ cleanup (state_of r) = false /\
  forall s, memo s = KString EmptyString ->
    localMutate value s = (Returns tt, s, []) /\
    localRefetch' s = (Returns (Fulfilled None), s, []) /\
    localForget s = (Returns tt, s, []) /\
    localAbort reason s = (Returns tt, s, []) /\
    localExpiration expiration s = (Returns None, s, []).
Proof.
  cbv zeta. rewrite created_run. cbv zeta.
  rewrite state_of_run, trace_of_run, resource_load_run. simpl keyMemo. cbv iota.
  rewrite state_of_run, trace_of_run.
  rewrite subscriptionEffect_inactive by reflexivity.
  rewrite state_of_run, trace_of_run.
  split; [reflexivity|]. split; [reflexivity|]. split; [reflexivity|].
  intros s Hs.
  rewrite localMutate_run, localRefetch_run, localForget_run, localAbort_run,
    localExpiration_run, Hs.
  repeat split.
Qed.

(** ** No listener leaks *)

Lemma handle_returns e s : result_of (handle' e s) = Returns tt.
Proof.
  destruct e as [key|k d|now now'| |b|v| | |r|];
    try (apply handle_frame; intros; discriminate).
  - simpl. destruct (decide (keyMemo key = memo s)) as [Heq|Hne].
    + rewrite keyChanged_same by assumption. reflexivity.
    + rewrite keyChanged_run by assumption. reflexivity.
  - simpl. rewrite localUnsubscribe_run. reflexivity.
Qed.

Lemma handleAll_cons e es s :
  handleAll options contextOptions hasWindow settle (e :: es) s =
    let r1 := handle' e s in
    let r2 := handleAll options contextOptions hasWindow settle es (state_of r1) in
    (result_of r2, state_of r2, trace_of r1 ++ trace_of r2).
Proof.
  unfold handleAll. cbn [forEach].
  rewrite (bind_returns _ _ _ tt) by apply handle_returns. reflexivity.
Qed.

Lemma handleAll_reachable es : forall s,
  reachable options contextOptions hasWindow settle s ->
  result_of (handleAll options contextOptions hasWindow settle es s) = Returns tt /\
  reachable options contextOptions hasWindow settle
    (state_of (handleAll options contextOptions hasWindow settle es s)).
Proof.
  induction es as [|e es IH]; intros s Hreach.
  - split; [reflexivity | exact Hreach].
  - rewrite handleAll_cons. cbv zeta. rewrite result_of_run, state_of_run.
    apply IH. apply reachable_step. exact Hreach.
Qed.

(** Whatever events follow the creation of an instance, in whatever
    order, the run completes without an exception and at most six
    listeners are registered at its end: nothing accumulates over key
    changes, refetches or repeated [unsubscribe()] calls. *)
Theorem no_listener_leak now key es :
  let r := handleAll options contextOptions hasWindow settle es
             (state_of (createTurboResource options contextOptions hasWindow
                                            now key)) in
  result_of r = Returns tt /\ (length (live (state_of r)) <= 6)%nat.
Proof.
  cbv zeta.
  destruct (handleAll_reachable es _
              (reachable_created options contextOptions hasWindow settle now key))
    as [Hr Hreach].
  split; [exact Hr|].
  destruct (reachable_invariant _ Hreach) as [_ [Hnil | (k & n & _ & Hl)]].
  - rewrite Hnil. simpl. lia.
  - rewrite Hl, subscriptionSet_length.
    destruct (refetchOnFocus options contextOptions && hasWindow);
      destruct (refetchOnConnect options contextOptions && hasWindow); simpl; lia.
Qed.

(** ** The polling signals of [createFocusAvailable] *)

Lemma focus_nonneg f :
  0 <= focusInterval options contextOptions ->
  focusReachable options contextOptions f -> 0 <= availableIn f.
Proof.
  intros HT. induction 1 as [now s | now s f _ IH].
  - exact HT.
  - unfold focusAvailableTick. simpl. repeat case_bool_decide; simpl; lia.
Qed.

(** With a focus interval [T >= 0], every tick of [createFocusAvailable]
    leaves [isAvailable] true exactly when more than [T] has passed since
    the focus timestamp, and [availableIn] at [max 0 (T - elapsed)],
    never negative.  [isAvailable] agrees with the throttle: while the
    focus trigger is registered, a focus event at the time of the tick is
    accepted when the tick says available and dropped when it does not. *)
Theorem focus_available_tick f now now' s :
  0 <= focusInterval options contextOptions ->
  focusReachable options contextOptions f ->
  let T := focusInterval options contextOptions in
  let f' := focusAvailableTick options contextOptions now s f in
  f' = mkFocus (bool_decide (T < now - lastFocus s))
               (Z.max 0 (T - (now - lastFocus s))) /\
  0 <= availableIn f' /\
  (reachable options contextOptions hasWindow settle s ->
   live s <> [] ->
   refetchOnFocus options contextOptions && hasWindow = true ->
   (isAvailable f' = true ->
    refetches (trace_of (handle' (EvFocus now now') s)) = 1%nat) /\
   (isAvailable f' = false ->
    handle' (EvFocus now now') s = (Returns tt, s, []))).
Proof.
  intros HT Hf T f'.
  pose proof (focus_nonneg f HT Hf) as Hnn.
  assert (f' = mkFocus (bool_decide (T < now - lastFocus s))
                       (Z.max 0 (T - (now - lastFocus s)))) as Hf'.
  { subst f' T. unfold focusAvailableTick. cbv zeta.
    unfold setIsAvailable, setAvailableIn.
    repeat case_bool_decide; simpl; f_equal; lia. }
  split; [exact Hf'|]. rewrite Hf'. cbn [availableIn isAvailable]. split; [lia|].
  intros Hreach Hne Hon.
  destruct (reachable_invariant s Hreach) as [_ Hone].
  destruct Hone as [Hnil | (k & n & Hk & Hl)]; [contradiction|].
  assert (oneSet' s) as Hone by (right; exists k, n; split; assumption).
  rewrite (focus_run now now' s k Hone Hne Hon Hk). fold T.
  split; intros ->; [|reflexivity].
  rewrite trace_of_run. apply refetches_refetch.
Qed.

(** * The instance against a cache that calls back *)

Section Announce.

Variable announces : nat -> option Promise.

Local Abbreviation Aquery := (Announcing.query options contextOptions announces).
Local Abbreviation Aannounce := (Announcing.announce options contextOptions announces).
Local Abbreviation Areplay := (Announcing.replay options contextOptions announces).
Local Abbreviation Asubscribe := (Announcing.subscribe options contextOptions announces).
Local Abbreviation Aloader := (Announcing.loader options contextOptions announces).
Local Abbreviation Aresource_load :=
  (Announcing.resource_load options contextOptions announces).
Local Abbreviation AlocalRefetch :=
  (Announcing.localRefetch options contextOptions settle announces).
Local Abbreviation ArefetchListener :=
  (Announcing.refetchListener options contextOptions settle announces).
Local Abbreviation AsubscriptionEffect :=
  (Announcing.subscriptionEffect options contextOptions hasWindow announces).
Local Abbreviation AkeyChanged :=
  (Announcing.keyChanged options contextOptions hasWindow announces).
Local Abbreviation Ahandle :=
  (Announcing.handle options contextOptions hasWindow settle announces).
Local Abbreviation Areachable :=
  (Announcing.reachable options contextOptions hasWindow settle announces).
Local Abbreviation Acreate :=
  (Announcing.createTurboResource options contextOptions hasWindow announces).

(** ** What a callback can change *)

Lemma setIsRefetching_eta s : setIsRefetching (isRefetching s) s = s.
Proof. destruct s. reflexivity. Qed.

Lemma flagOnly_refl s : flagOnly s s.
Proof. exists (isRefetching s). symmetry. apply setIsRefetching_eta. Qed.

Lemma flagOnly_trans s1 s2 s3 : flagOnly s1 s2 -> flagOnly s2 s3 -> flagOnly s1 s3.
Proof. intros [b1 ->] [b2 ->]. exists b2. reflexivity. Qed.

Lemma flagOnly_binding s s' : flagOnly s s' -> sameBinding s s'.
Proof. intros [b ->]. repeat split. Qed.

Lemma handler_flagOnly d s :
  result_of (handler options contextOptions d s) = Returns tt /\
  flagOnly s (state_of (handler options contextOptions d s)).
Proof.
  rewrite handler_run. destruct d; rewrite result_of_run, state_of_run;
    (split; [reflexivity|]); try apply flagOnly_refl; eexists; reflexivity.
Qed.

Lemma dispatch_flagOnly k d s :
  result_of (dispatch options contextOptions k d s) = Returns tt /\
  flagOnly s (state_of (dispatch options contextOptions k d s)).
Proof.
  unfold dispatch. rewrite read_bind.
  apply (forEach_frame flagOnly); [apply flagOnly_refl | apply flagOnly_trans |].
  intros _ s0. apply handler_flagOnly.
Qed.

Lemma announce_flagOnly n k s :
  result_of (Aannounce n k s) = Returns tt /\ flagOnly s (state_of (Aannounce n k s)).
Proof.
  unfold Announcing.announce. destruct (announces n).
  - apply dispatch_flagOnly.
  - split; [reflexivity | apply flagOnly_refl].
Qed.

(** The listeners a cache call reaches: none when nothing is registered
    for the key, the one 'refetching' handler when the set of the key is. *)
Lemma announce_none n k s :
  filter (fun l => listens (OnCache k refetching) l) (live s) = [] ->
  Aannounce n k s = (Returns tt, s, []).
Proof.
  intros H. unfold Announcing.announce. destruct (announces n); [|reflexivity].
  unfold dispatch. rewrite read_bind. simpl event_of. rewrite H. reflexivity.
Qed.

Lemma announce_bound n k s :
  oneSet' s -> live s <> [] -> active (memo s) = Some k ->
  Aannounce n k s
  = (Returns tt, announced (announces n) s,
     announcedTrace options contextOptions (announces n) s).
Proof.
  intros Hone Hne Hk. unfold Announcing.announce, announced, announcedTrace.
  destruct (announces n) as [p|]; [|reflexivity].
  change (dispatch options contextOptions k (DRefetching p) s)
    with (handle' (EvCache k (DRefetching p)) s).
  rewrite (dispatch_run s k (DRefetching p) Hone Hne Hk), handler_run. reflexivity.
Qed.

Lemma emit_bind {B} (o : Op) (k : unit -> M B) s :
  bind (emit o) k s = (result_of (k tt s), state_of (k tt s), o :: trace_of (k tt s)).
Proof.
  unfold bind, emit. destruct (k tt s) as [[r s2] t2]. reflexivity.
Qed.

Lemma fresh_run s : fresh s = (Returns (next s), set_next (S (next s)) s, []).
Proof. reflexivity. Qed.

Lemma query_run k o s :
  let r := Aannounce (next s) k (set_next (S (next s)) s) in
  Aquery k o s = (Returns (next s), state_of r, OpQuery k o (next s) :: trace_of r).
Proof.
  cbv zeta. unfold Announcing.query.
  rewrite (bind_run _ _ _ _ _ _ (fresh_run s)), emit_bind.
  rewrite (bind_returns _ _ _ tt) by apply announce_flagOnly.
  rewrite !result_of_run, !state_of_run, !trace_of_run.
  unfold ret. rewrite !result_of_run, !state_of_run, !trace_of_run.
  rewrite app_nil_r. reflexivity.
Qed.

Lemma localRefetch_announcing s :
  AlocalRefetch s =
    match active (memo s) with
    | None => (Returns (Fulfilled None), s, [])
    | Some k =>
        let r := Aannounce (next s) k (set_next (S (next s)) s) in
        (Returns (settle (next s)), state_of r,
         OpQuery k (spread false contextOptions options) (next s)
         :: trace_of r ++ [commitOp options contextOptions (CellRefetch (next s))])
    end.
Proof.
  unfold Announcing.localRefetch, async. rewrite read_bind.
  destruct (active (memo s)) as [k|]; [|reflexivity].
  rewrite (bind_run _ _ _ _ _ _ (query_run k _ s)).
  rewrite (bind_run _ _ _ _ _ _ (through_transition_run _ _)).
  unfold await. rewrite !result_of_run, !state_of_run, !trace_of_run.
  rewrite app_nil_r. cbv zeta.
  destruct (settle (next s)); reflexivity.
Qed.

(** ** The effect when the cache answers the subscription *)

Lemma replay_run n s :
  Areplay n s
  = (Returns tt, announced (announces n) s,
     announcedTrace options contextOptions (announces n) s).
Proof.
  unfold Announcing.replay, announced, announcedTrace.
  destruct (announces n) as [p|]; [|reflexivity].
  rewrite handler_run. reflexivity.
Qed.

Lemma assign_subscribe_plain x k ev s :
  ev <> refetching ->
  assign x (Asubscribe k ev) s
  = (Returns tt, register x (UnsubCache (next s)) (OnCache k ev) k s,
     [OpSubscribe k ev (next s)]).
Proof. intros H. destruct ev; try reflexivity. contradiction. Qed.

Lemma assign_subscribe_refetching x k s :
  assign x (Asubscribe k refetching) s
  = (Returns tt,
     announced (announces (next s))
               (register x (UnsubCache (next s)) (OnCache k refetching) k s),
     OpSubscribe k refetching (next s)
     :: announcedTrace options contextOptions (announces (next s)) s).
Proof.
  unfold assign, Announcing.subscribe.
  rewrite (bind_run _ _ s (UnsubCache (next s))
             (announced (announces (next s))
                (set_live (live s ++ [mkListener (next s) (OnCache k refetching) k])
                          (set_next (S (next s)) s)))
             (OpSubscribe k refetching (next s)
              :: announcedTrace options contextOptions (announces (next s)) s)).
  - unfold modify. rewrite result_of_run, state_of_run, trace_of_run, app_nil_r.
    unfold announced. destruct (announces (next s)); reflexivity.
  - rewrite (bind_run _ _ _ _ _ _ (fresh_run s)), emit_bind, modify_bind.
    rewrite (bind_run _ _ _ _ _ _ (replay_run _ _)).
    unfold ret. rewrite !result_of_run, !state_of_run, !trace_of_run.
    rewrite app_nil_r.
    unfold announced, announcedTrace.
    destruct (announces (next s)); reflexivity.
Qed.

Lemma announcing_effect_inactive s :
  active (memo s) = None ->
  AsubscriptionEffect s = (Returns tt, setIsRefetching false s, []).
Proof.
  intros H. unfold Announcing.subscriptionEffect. rewrite modify_bind, read_bind.
  change (memo (setIsRefetching false s)) with (memo s).
  rewrite H. reflexivity.
Qed.

(** The run of the effect for an active key: the instance is the one the
    silent cache leaves, but for the flag, which is set when the cache
    answered the 'refetching' subscription. *)
Lemma announcing_effect_bound s k :
  active (memo s) = Some k ->
  AsubscriptionEffect s
  = (Returns tt,
     announced (announces (S (next s)))
               (boundState options contextOptions hasWindow k s),
     setupTraceA options contextOptions hasWindow announces k s).
Proof.
  intros H. unfold Announcing.subscriptionEffect. rewrite modify_bind, read_bind.
  change (memo (setIsRefetching false s)) with (memo s).
  rewrite H.
  rewrite (bind_run _ _ _ _ _ _ (assign_subscribe_plain _ _ mutated _ ltac:(discriminate))).
  rewrite (bind_run _ _ _ _ _ _ (assign_subscribe_refetching _ _ _)).
  rewrite (bind_run _ _ _ _ _ _ (assign_subscribe_plain _ _ resolved _ ltac:(discriminate))).
  rewrite (bind_run _ _ _ _ _ _ (assign_subscribe_plain _ _ error _ ltac:(discriminate))).
  unfold boundState, setupTraceA.
  set (s4 := register unsubscribeErrors _ _ _ _).
  rewrite (bind_returns _ _ _ tt)
    by (rewrite assign_onFocus_run; destruct (_ && _); reflexivity).
  rewrite (bind_returns _ _ _ tt)
    by (rewrite assign_onConnect_run; destruct (_ && _); reflexivity).
  rewrite assign_onFocus_run. subst s4.
  unfold announced, announcedTrace. cbn [next loading register set_var set_live
    set_next setIsRefetching].
  destruct (announces (S (next s))) as [p|];
    destruct (refetchOnFocus options contextOptions && hasWindow);
    rewrite !state_of_run, !trace_of_run, assign_onConnect_run;
    destruct (refetchOnConnect options contextOptions && hasWindow);
    try destruct (loading s); reflexivity.
Qed.

(** ** Key changes and the invariant against a cache that calls back *)

Lemma announced_binding o s : sameBinding s (announced o s).
Proof. destruct o; repeat split. Qed.

Lemma announcing_load_run k s :
  Aresource_load k s =
    match k with
    | KString key =>
        let r := Aannounce (next s) key (set_next (S (next s)) s) in
        (Returns tt, state_of r,
         OpQuery key (spread true contextOptions options) (next s) :: trace_of r)
    | _ => (Returns tt, s, [])
    end.
Proof.
  destruct k as [key| | |]; try reflexivity.
  unfold Announcing.resource_load, Announcing.loader.
  rewrite (bind_run _ _ _ _ _ _ (query_run key _ s)).
  unfold ret. rewrite !result_of_run, !state_of_run, !trace_of_run, app_nil_r.
  reflexivity.
Qed.

Lemma announcing_load_frame k s :
  result_of (Aresource_load k s) = Returns tt /\
  sameBinding s (state_of (Aresource_load k s)) /\
  lastFocus (state_of (Aresource_load k s)) = lastFocus s /\
  next (state_of (Aresource_load k s))
  = (if is_string k then S (next s) else next s).
Proof.
  rewrite announcing_load_run. destruct k as [key| | |];
    try (repeat split; reflexivity).
  cbv zeta. rewrite result_of_run, state_of_run.
  destruct (announce_flagOnly (next s) key (set_next (S (next s)) s))
    as [_ [b ->]].
  repeat split.
Qed.

Lemma announcing_effect_returns s :
  result_of (AsubscriptionEffect s) = Returns tt.
Proof.
  destruct (active (memo s)) as [k|] eqn:H.
  - rewrite (announcing_effect_bound s k H). reflexivity.
  - rewrite announcing_effect_inactive by assumption. reflexivity.
Qed.

Lemma announcing_keyChanged_same key s :
  keyMemo key = memo s -> AkeyChanged key s = (Returns tt, s, []).
Proof.
  intros H. unfold Announcing.keyChanged. rewrite read_bind.
  destruct (decide (keyMemo key = memo s)); [reflexivity | contradiction].
Qed.

Lemma announcing_keyChanged_run key s :
  keyMemo key <> memo s ->
  let r1 := Aresource_load (keyMemo key) (set_memo (keyMemo key) s) in
  let r2 := runCleanup (state_of r1) in
  let r3 := AsubscriptionEffect (state_of r2) in
  AkeyChanged key s =
    (Returns tt, state_of r3, trace_of r1 ++ trace_of r2 ++ trace_of r3).
Proof.
  intros H. cbv zeta. unfold Announcing.keyChanged. rewrite read_bind.
  destruct (decide (keyMemo key = memo s)); [contradiction|].
  rewrite modify_bind.
  rewrite (bind_returns _ _ _ tt) by apply announcing_load_frame.
  rewrite (bind_returns _ _ _ tt) by apply runCleanup_returns.
  rewrite !result_of_run, !state_of_run, !trace_of_run.
  rewrite announcing_effect_returns. reflexivity.
Qed.

Lemma announcing_effect_invariant s :
  live s = [] ->
  owned (state_of (AsubscriptionEffect s))
  /\ oneSet' (state_of (AsubscriptionEffect s)).
Proof.
  intros Hl. destruct (active (memo s)) as [k|] eqn:Hk.
  - rewrite (announcing_effect_bound s k Hk), state_of_run.
    apply (sameBinding_invariant _ _ (announced_binding _ _)).
    pose proof (effect_invariant s Hl) as Hinv.
    rewrite (subscriptionEffect_bound s k Hk), state_of_run in Hinv. exact Hinv.
  - rewrite announcing_effect_inactive by assumption. rewrite state_of_run.
    pose proof (effect_invariant s Hl) as Hinv.
    rewrite (subscriptionEffect_inactive s Hk), state_of_run in Hinv. exact Hinv.
Qed.

Lemma announcing_cleared key s :
  owned s ->
  live (state_of (runCleanup (state_of
         (Aresource_load (keyMemo key) (set_memo (keyMemo key) s))))) = [].
Proof.
  intros Hown. apply runCleanup_clears.
  destruct (announcing_load_frame (keyMemo key) (set_memo (keyMemo key) s))
    as (_ & (_ & Hv & Hc & Hl) & _).
  intros l Hin. rewrite Hl in Hin. rewrite Hc, Hv. exact (Hown l Hin).
Qed.

Lemma announcing_refetch_frame s :
  sameBinding s (state_of (AlocalRefetch s)) /\
  lastFocus (state_of (AlocalRefetch s)) = lastFocus s.
Proof.
  rewrite localRefetch_announcing.
  destruct (active (memo s)) as [k|]; [|repeat split].
  cbv zeta. rewrite state_of_run.
  destruct (announce_flagOnly (next s) k (set_next (S (next s)) s))
    as [_ [b ->]].
  repeat split.
Qed.

Lemma announcing_listener_run s :
  ArefetchListener s
  = (Returns tt, state_of (AlocalRefetch s), trace_of (AlocalRefetch s)).
Proof.
  unfold Announcing.refetchListener, bind. rewrite localRefetch_announcing.
  destruct (active (memo s)); cbv zeta; unfold ret;
    rewrite ?state_of_run, ?trace_of_run, ?app_nil_r; reflexivity.
Qed.

Lemma announcing_listener_frame s :
  result_of (ArefetchListener s) = Returns tt /\
  sameBinding s (state_of (ArefetchListener s)).
Proof.
  rewrite announcing_listener_run. split; [reflexivity|].
  rewrite state_of_run. apply announcing_refetch_frame.
Qed.

Lemma announcing_rawHandler_frame now now' s :
  let r := rawHandler options contextOptions ArefetchListener now now' s in
  result_of r = Returns tt /\ sameBinding s (state_of r).
Proof.
  cbv zeta. rewrite rawHandler_run. destruct (bool_decide _).
  - destruct (announcing_listener_frame (setLastFocus now' s)) as [Hr Hs].
    rewrite result_of_run, state_of_run. split; [assumption | exact Hs].
  - split; [reflexivity | apply sameBinding_refl].
Qed.

Lemma announcing_handle_frame e s :
  (forall key, e <> EvKey key) -> e <> EvUnsubscribe ->
  result_of (Ahandle e s) = Returns tt /\ sameBinding s (state_of (Ahandle e s)).
Proof.
  intros Hk Hu.
  destruct e as [key|k d|now now'| |b|v| | |r|].
  - destruct (Hk key). reflexivity.
  - exact (handle_frame (EvCache k d) s Hk Hu).
  - unfold Announcing.handle, Announcing.windowFocus. rewrite read_bind.
    apply (forEach_frame sameBinding);
      [apply sameBinding_refl | apply sameBinding_trans |].
    intros _ s0. apply announcing_rawHandler_frame.
  - unfold Announcing.handle, Announcing.windowOnline. rewrite read_bind.
    apply (forEach_frame sameBinding);
      [apply sameBinding_refl | apply sameBinding_trans |].
    intros _ s0. apply announcing_listener_frame.
  - exact (handle_frame (EvLoading b) s Hk Hu).
  - exact (handle_frame (EvMutate v) s Hk Hu).
  - apply announcing_listener_frame.
  - exact (handle_frame EvForget s Hk Hu).
  - exact (handle_frame (EvAbort r) s Hk Hu).
  - destruct Hu. reflexivity.
Qed.

Lemma announcing_handle_invariant e s :
  owned s /\ oneSet' s ->
  owned (state_of (Ahandle e s)) /\ oneSet' (state_of (Ahandle e s)).
Proof.
  intros Hinv.
  destruct e as [key|k d|now now'| |b|v| | |r|].
  2-9: eapply sameBinding_invariant; [|exact Hinv];
       apply announcing_handle_frame; intros; discriminate.
  - unfold Announcing.handle.
    destruct (decide (keyMemo key = memo s)) as [Heq|Hne].
    + rewrite announcing_keyChanged_same by assumption. exact Hinv.
    + rewrite announcing_keyChanged_run by assumption. cbv zeta.
      rewrite state_of_run.
      apply announcing_effect_invariant. apply announcing_cleared. apply Hinv.
  - exact (handle_invariant EvUnsubscribe s Hinv).
Qed.

Lemma announcing_created_run now key :
  Acreate now key =
    let r1 := Aresource_load (keyMemo key) (initial now key) in
    let r2 := AsubscriptionEffect (state_of r1) in
    (Returns tt, state_of r2, trace_of r1 ++ trace_of r2).
Proof.
  unfold Announcing.createTurboResource, Announcing.mount. rewrite read_bind.
  rewrite (bind_returns _ _ _ tt) by apply announcing_load_frame.
  cbv zeta. rewrite announcing_effect_returns. reflexivity.
Qed.

(** Against any cache, every reachable state has at most one subscription
    set, the one of its key, held by the six variables. *)
Lemma announcing_invariant s : Areachable s -> owned s /\ oneSet' s.
Proof.
  induction 1 as [now key | s e _ IH].
  - rewrite announcing_created_run. cbv zeta. rewrite state_of_run.
    apply announcing_effect_invariant.
    destruct (announcing_load_frame (keyMemo key) (initial now key))
      as (_ & (_ & _ & _ & Hl) & _).
    rewrite Hl. reflexivity.
  - apply announcing_handle_invariant. exact IH.
Qed.

(** ** The refetching flag *)

Lemma boundState_flag k s :
  isRefetching (boundState options contextOptions hasWindow k s) = false.
Proof.
  unfold boundState.
  destruct (refetchOnFocus options contextOptions && hasWindow);
    destruct (refetchOnConnect options contextOptions && hasWindow); reflexivity.
Qed.

Lemma announced_flag o s :
  isRefetching (announced o s)
  = match o with Some _ => true | None => isRefetching s end.
Proof. destruct o; reflexivity. Qed.

Lemma announcing_effect_flag s :
  isRefetching (state_of (AsubscriptionEffect s)) =
    match active (memo s), announces (S (next s)) with
    | Some _, Some _ => true
    | _, _ => false
    end.
Proof.
  destruct (active (memo s)) as [k|] eqn:Hk.
  - rewrite (announcing_effect_bound s k Hk), state_of_run, announced_flag.
    rewrite boundState_flag. reflexivity.
  - rewrite announcing_effect_inactive by assumption. reflexivity.
Qed.

Lemma setupTraceA_subscribes k s :
  OpSubscribe k refetching (S (next s))
  ∈ setupTraceA options contextOptions hasWindow announces k s.
Proof.
  unfold setupTraceA. apply elem_of_app. left.
  apply elem_of_cons. right. apply elem_of_cons. left. reflexivity.
Qed.

Lemma announcing_refetch_event s :
  Ahandle EvRefetch s
  = (Returns tt, state_of (AlocalRefetch s), trace_of (AlocalRefetch s)).
Proof. exact (announcing_listener_run s). Qed.

Lemma announcing_refetch_bound s k :
  oneSet' s -> live s <> [] -> active (memo s) = Some k ->
  AlocalRefetch s
  = (Returns (settle (next s)),
     announced (announces (next s)) (set_next (S (next s)) s),
     OpQuery k (spread false contextOptions options) (next s)
     :: announcedTrace options contextOptions (announces (next s)) s
     ++ [commitOp options contextOptions (CellRefetch (next s))]).
Proof.
  intros Hone Hne Hk. rewrite localRefetch_announcing, Hk. cbv zeta.
  assert (oneSet' (set_next (S (next s)) s)) as Hone' by exact Hone.
  assert (live (set_next (S (next s)) s) <> []) as Hne' by exact Hne.
  assert (active (memo (set_next (S (next s)) s)) = Some k) as Hk' by exact Hk.
  rewrite (announce_bound (next s) k (set_next (S (next s)) s) Hone' Hne' Hk').
  rewrite state_of_run, trace_of_run. reflexivity.
Qed.

Lemma announcing_refetch_detached s k :
  live s = [] -> active (memo s) = Some k ->
  AlocalRefetch s
  = (Returns (settle (next s)), set_next (S (next s)) s,
     [ OpQuery k (spread false contextOptions options) (next s);
       commitOp options contextOptions (CellRefetch (next s)) ]).
Proof.
  intros Hl Hk. rewrite localRefetch_announcing, Hk. cbv zeta.
  rewrite (announce_none (next s) k (set_next (S (next s)) s))
    by (change (live (set_next (S (next s)) s)) with (live s); rewrite Hl;
        reflexivity).
  rewrite state_of_run, trace_of_run. reflexivity.
Qed.

(** C4, as the code has it, against a cache that may call listeners back
    during [query] and [subscribe].  The effect run by the creation and
    by every change of the key first clears the flag and then subscribes:
    right afterwards the flag is set exactly when the key is active and
    the cache answered the new 'refetching' subscription with a fetch
    that is already running, whatever the flag was before.  While the
    subscription set of the active key is registered, a 'refetching'
    event of the key sets the flag, [refetch()] sets it exactly when the
    cache announces the fetch it starts and otherwise leaves it, and
    'resolved' and 'error' clear it.  [unsubscribe()] removes every
    listener and keeps the flag; with no listener registered neither a
    cache event nor [refetch()] moves the flag, so a flag that was set
    stays set until the next change of the key. *)
Theorem C4_isRefetching_lifecycle s :
  Areachable s ->
  (forall now key,
     isRefetching (state_of (Acreate now key)) =
       match active (keyMemo key), announces 2%nat with
       | Some _, Some _ => true
       | _, _ => false
       end) /\
  (forall key, keyMemo key <> memo s ->
     let r := Ahandle (EvKey key) s in
     (active (keyMemo key) = None -> isRefetching (state_of r) = false) /\
     (forall k, active (keyMemo key) = Some k ->
        OpSubscribe k refetching (S (S (next s))) ∈ trace_of r /\
        isRefetching (state_of r)
        = match announces (S (S (next s))) with
          | Some _ => true
          | None => false
          end)) /\
  (forall k, active (memo s) = Some k -> live s <> [] ->
     (forall p, isRefetching (state_of (Ahandle (EvCache k (DRefetching p)) s))
                = true) /\
     isRefetching (state_of (Ahandle EvRefetch s))
     = match announces (next s) with
       | Some _ => true
       | None => isRefetching s
       end /\
     isRefetching (state_of (Ahandle (EvCache k DResolved) s)) = false /\
     isRefetching (state_of (Ahandle (EvCache k DError) s)) = false) /\
  (live (state_of (Ahandle EvUnsubscribe s)) = [] /\
   isRefetching (state_of (Ahandle EvUnsubscribe s)) = isRefetching s) /\
  (live s = [] ->
     (forall k d, isRefetching (state_of (Ahandle (EvCache k d) s))
                  = isRefetching s) /\
     isRefetching (state_of (Ahandle EvRefetch s)) = isRefetching s).
Proof.
  intros Hreach. destruct (announcing_invariant s Hreach) as [Hown Hone].
  split; [|split; [|split; [|split]]].
  - intros now key. rewrite announcing_created_run. cbv zeta.
    rewrite state_of_run, announcing_effect_flag.
    destruct (announcing_load_frame (keyMemo key) (initial now key))
      as (_ & (Hm & _) & _ & Hn).
    rewrite Hm, Hn. change (memo (initial now key)) with (keyMemo key).
    destruct (active (keyMemo key)) as [k|] eqn:Hk; [|reflexivity].
    rewrite (active_string _ _ Hk). reflexivity.
  - intros key Hne r. subst r. unfold Announcing.handle.
    rewrite announcing_keyChanged_run by assumption. cbv zeta.
    rewrite state_of_run, trace_of_run, announcing_effect_flag.
    destruct (announcing_load_frame (keyMemo key) (set_memo (keyMemo key) s))
      as (_ & (Hm1 & _) & _ & Hn1).
    set (r1 := Aresource_load (keyMemo key) (set_memo (keyMemo key) s)) in *.
    destruct (runCleanup_frame (state_of r1))
      as (Hm2 & _ & _ & _ & _ & Hn2 & _). cbv zeta in Hm2, Hn2.
    set (r2 := runCleanup (state_of r1)) in *.
    rewrite Hm1 in Hm2. change (memo (set_memo (keyMemo key) s)) with (keyMemo key) in Hm2.
    rewrite Hn1 in Hn2. change (next (set_memo (keyMemo key) s)) with (next s) in Hn2.
    rewrite Hm2. split.
    + intros ->. reflexivity.
    + intros k Hk. rewrite Hk. rewrite (active_string _ _ Hk) in Hn2.
      simpl in Hn2. rewrite Hn2. split; [|reflexivity].
      assert (active (memo (state_of r2)) = Some k) as Hk2 by (rewrite Hm2; exact Hk).
      rewrite (announcing_effect_bound (state_of r2) k Hk2), trace_of_run.
      apply elem_of_app. right. apply elem_of_app. right.
      rewrite <- Hn2. apply setupTraceA_subscribes.
  - intros k Hk Hne. split; [|split; [|split]].
    + intros p. exact (dispatch_flag s k (DRefetching p) Hone Hne Hk).
    + rewrite announcing_refetch_event, state_of_run.
      rewrite (announcing_refetch_bound s k Hone Hne Hk), state_of_run.
      rewrite announced_flag. reflexivity.
    + exact (dispatch_flag s k DResolved Hone Hne Hk).
    + exact (dispatch_flag s k DError Hone Hne Hk).
  - change (Ahandle EvUnsubscribe s) with (localUnsubscribe s). split.
    + exact (localUnsubscribe_clears s Hown).
    + exact (proj1 (proj2 (localUnsubscribe_frame s))).
  - intros Hl. split.
    + intros k d.
      change (Ahandle (EvCache k d) s) with (handle' (EvCache k d) s).
      rewrite (proj1 (no_listener_no_effect s Hl)). reflexivity.
    + rewrite announcing_refetch_event, state_of_run, localRefetch_announcing.
      destruct (active (memo s)) as [k|]; [|reflexivity]. cbv zeta.
      rewrite (announce_none (next s) k (set_next (S (next s)) s))
        by (change (live (set_next (S (next s)) s)) with (live s); rewrite Hl;
            reflexivity).
      reflexivity.
Qed.

(** ** Refetches against a cache that calls back *)

Lemma refetches_announcedTrace o s :
  refetches (announcedTrace options contextOptions o s) = 0%nat.
Proof.
  unfold announcedTrace, commitOp, through_transition.
  destruct o; [destruct (loading s)|]; try reflexivity;
    destruct (transition options contextOptions); reflexivity.
Qed.

Lemma refetches_commit c :
  refetches [commitOp options contextOptions c] = 0%nat.
Proof.
  unfold commitOp, through_transition.
  destruct (transition options contextOptions); reflexivity.
Qed.

Lemma refetches_announced o s p :
  refetches (announcedTrace options contextOptions o s
             ++ [commitOp options contextOptions (CellRefetch p)]) = 0%nat.
Proof.
  rewrite refetches_app, refetches_announcedTrace, refetches_commit.
  reflexivity.
Qed.

Lemma announcing_online_run s k :
  oneSet' s -> live s <> [] -> active (memo s) = Some k ->
  refetchOnConnect options contextOptions && hasWindow = true ->
  Ahandle EvOnline s
  = (Returns tt, announced (announces (next s)) (set_next (S (next s)) s),
     OpQuery k (spread false contextOptions options) (next s)
     :: announcedTrace options contextOptions (announces (next s)) s
     ++ [commitOp options contextOptions (CellRefetch (next s))]).
Proof.
  intros Hone Hne Hk Hon. unfold Announcing.handle, Announcing.windowOnline.
  rewrite read_bind.
  destruct (online_listener s Hone Hne Hon) as [l ->].
  rewrite forEach_single by (rewrite announcing_listener_run; reflexivity).
  rewrite announcing_listener_run.
  rewrite (announcing_refetch_bound s k Hone Hne Hk), state_of_run, trace_of_run.
  reflexivity.
Qed.

(** The browser going online refetches every time, against any cache: [n]
    events in a row issue exactly [n] fetches of the active key, each
    with the refetch options and a commit of the very promise it
    obtained, and none of them touches the clock of the focus throttle. *)
Theorem online_always_refetches s k n :
  Areachable s -> live s <> [] -> active (memo s) = Some k ->
  refetchOnConnect options contextOptions && hasWindow = true ->
  Ahandle EvOnline s
  = (Returns tt, announced (announces (next s)) (set_next (S (next s)) s),
     OpQuery k (spread false contextOptions options) (next s)
     :: announcedTrace options contextOptions (announces (next s)) s
     ++ [commitOp options contextOptions (CellRefetch (next s))]) /\
  let r := Announcing.handleAll options contextOptions hasWindow settle announces
             (replicate n EvOnline) s in
  result_of r = Returns tt /\
  refetches (trace_of r) = n /\
  lastFocus (state_of r) = lastFocus s /\
  next (state_of r) = (next s + n)%nat.
Proof.
  intros Hreach Hne Hk Hon.
  destruct (announcing_invariant s Hreach) as [_ Hone]. clear Hreach.
  split; [exact (announcing_online_run s k Hone Hne Hk Hon)|].
  revert s Hone Hne Hk. induction n as [|n IH]; intros s Hone Hne Hk.
  - cbv zeta. unfold Announcing.handleAll. cbn [replicate forEach].
    unfold ret. rewrite result_of_run, state_of_run, trace_of_run.
    split; [reflexivity|]. split; [reflexivity|]. split; [reflexivity|lia].
  - cbv zeta. unfold Announcing.handleAll. simpl replicate.
    cbn [forEach].
    rewrite (bind_run _ _ _ _ _ _ (announcing_online_run s k Hone Hne Hk Hon)).
    set (s1 := announced (announces (next s)) (set_next (S (next s)) s)).
    assert (oneSet' s1) as Hone1 by (subst s1; destruct (announces (next s)); exact Hone).
    assert (live s1 <> []) as Hne1 by (subst s1; destruct (announces (next s)); exact Hne).
    assert (active (memo s1) = Some k) as Hk1
      by (subst s1; destruct (announces (next s)); exact Hk).
    assert (lastFocus s1 = lastFocus s) as Hl1
      by (subst s1; destruct (announces (next s)); reflexivity).
    assert (next s1 = S (next s)) as Hn1
      by (subst s1; destruct (announces (next s)); reflexivity).
    specialize (IH s1 Hone1 Hne1 Hk1). cbv zeta in IH.
    unfold Announcing.handleAll in IH.
    destruct (forEach (replicate n EvOnline) Ahandle s1) as [[o s2] t2] eqn:E.
    rewrite result_of_run, state_of_run, trace_of_run in IH.
    destruct IH as (Ho & Hr & Hl & Hx). subst o.
    rewrite result_of_run, state_of_run, trace_of_run.
    split; [reflexivity|]. split; [|split].
    + rewrite ?trace_of_run.
      change (OpQuery k (spread false contextOptions options) (next s)
              :: announcedTrace options contextOptions (announces (next s)) s
              ++ [commitOp options contextOptions (CellRefetch (next s))])
        with ([OpQuery k (spread false contextOptions options) (next s)]
              ++ announcedTrace options contextOptions (announces (next s)) s
              ++ [commitOp options contextOptions (CellRefetch (next s))]).
      rewrite !refetches_app, refetches_announcedTrace, refetches_commit, Hr.
      reflexivity.
    + rewrite ?state_of_run, Hl. exact Hl1.
    + rewrite ?state_of_run, Hx, Hn1. lia.
Qed.

(** [refetch()] fetches once, against any cache: it asks the cache for
    the active key exactly once with the refetch options, returns what
    the promise of that very request settles to, and hands the same
    promise to the resource, whose loader then awaits it instead of
    asking again.  Between the request and the commit lies only what the
    cache's own announcement made the 'refetching' listener do, and that
    is never a request. *)
Theorem refetch_fetches_once s k :
  Areachable s -> active (memo s) = Some k ->
  let r := AlocalRefetch s in
  let p := next s in
  result_of r = Returns (settle p) /\
  (exists mid,
     trace_of r = OpQuery k (spread false contextOptions options) p
                  :: mid ++ [commitOp options contextOptions (CellRefetch p)] /\
     refetches mid = 0%nat /\
     (live s <> [] ->
        mid = announcedTrace options contextOptions (announces p) s) /\
     (live s = [] -> mid = [])) /\
  Aloader k (RPromise p) (state_of r) = (Returns p, state_of r, []) /\
  refetches (trace_of r
             ++ trace_of (Aloader k (RPromise p) (state_of r))) = 1%nat /\
  memo (state_of r) = memo s /\ lastFocus (state_of r) = lastFocus s /\
  live (state_of r) = live s /\ next (state_of r) = S (next s).
Proof.
  intros Hreach Hk r p. subst r p.
  destruct (announcing_invariant s Hreach) as [_ Hone]. clear Hreach.
  assert (forall s', Aloader k (RPromise (next s)) s' = (Returns (next s), s', []))
    as Hload by reflexivity.
  destruct (live s) as [|l ls] eqn:Hl.
  - rewrite (announcing_refetch_detached s k Hl Hk).
    rewrite result_of_run, state_of_run, trace_of_run, Hload, trace_of_run.
    split; [reflexivity|]. split.
    { exists []. repeat split. intros H. congruence. }
    split; [reflexivity|]. split.
    { unfold commitOp, through_transition.
      destruct (transition options contextOptions); reflexivity. }
    repeat split. exact Hl.
  - assert (live s <> []) as Hne by (rewrite Hl; discriminate).
    rewrite (announcing_refetch_bound s k Hone Hne Hk).
    rewrite result_of_run, state_of_run, trace_of_run, Hload, trace_of_run.
    split; [reflexivity|]. split.
    { exists (announcedTrace options contextOptions (announces (next s)) s).
      split; [reflexivity|]. split.
      - unfold announcedTrace, commitOp, through_transition.
        destruct (announces (next s)); [destruct (loading s)|];
          destruct (transition options contextOptions); reflexivity.
      - split; [reflexivity|]. intros H. congruence. }
    split; [reflexivity|]. split.
    { rewrite app_nil_r.
      change (OpQuery k (spread false contextOptions options) (next s)
              :: announcedTrace options contextOptions (announces (next s)) s
              ++ [commitOp options contextOptions (CellRefetch (next s))])
        with ([OpQuery k (spread false contextOptions options) (next s)]
              ++ (announcedTrace options contextOptions (announces (next s)) s
              ++ [commitOp options contextOptions (CellRefetch (next s))])).
      rewrite refetches_app, refetches_announced. reflexivity. }
    destruct (announces (next s)); repeat split; exact Hl.
Qed.

(** The request [refetch()] sends.  Its options object is the spread of
    [stale: false], the context's query options and the instance's, in
    that order: an entry of the instance's options wins, then one of the
    context's, and only an entry called [stale] that neither of them
    carries is [false].  So as soon as the options or the context set
    [stale], [refetch()] and the loader send the very same options. *)
Theorem refetch_request_options s k :
  active (memo s) = Some k ->
  (exists rest,
     trace_of (AlocalRefetch s)
     = OpQuery k (spread false contextOptions options) (next s) :: rest) /\
  (forall i,
     spread false contextOptions options !! i =
       match spread_entries options !! i with
       | Some v => Some v
       | None =>
           match spread_entries contextOptions !! i with
           | Some v => Some v
           | None => if decide (i = "stale"%string)
                     then Some (QBool false) else None
           end
       end) /\
  (is_Some (spread_entries options !! "stale"%string) \/
   is_Some (spread_entries contextOptions !! "stale"%string) ->
   spread false contextOptions options = spread true contextOptions options /\
   forall r, (forall p, r <> RPromise p) ->
     Aloader k r s = Aquery k (spread false contextOptions options) s).
Proof.
  intros Hk. split; [|split].
  - rewrite localRefetch_announcing, Hk. cbv zeta. rewrite trace_of_run.
    eexists. reflexivity.
  - intros i. apply spread_lookup.
  - intros Hs.
    assert (spread false contextOptions options
            = spread true contextOptions options) as Heq.
    { apply map_eq. intros i. rewrite !spread_lookup.
      destruct (spread_entries options !! i) as [v|] eqn:Ho; [reflexivity|].
      destruct (spread_entries contextOptions !! i) as [v|] eqn:Hc; [reflexivity|].
      destruct (decide (i = "stale"%string)) as [->|]; [|reflexivity].
      destruct Hs as [[v Hv]|[v Hv]]; congruence. }
    split; [exact Heq|]. intros r Hr. rewrite Heq.
    destruct r as [|p|]; try (exfalso; exact (Hr p eq_refl)); reflexivity.
Qed.

(** What the cache's callbacks leave in the trace is never a request. *)
Lemma forEach_quiet {A} (f : A -> M unit) (l : list A) :
  (forall a s, refetches (trace_of (f a s)) = 0%nat) ->
  forall s, refetches (trace_of (forEach l f s)) = 0%nat.
Proof.
  intros H. induction l as [|a l IH]; intros s; [reflexivity|].
  cbn [forEach]. unfold bind. specialize (H a s).
  destruct (f a s) as [[[[]|e|] s1] t1]; rewrite trace_of_run in H;
    try (rewrite trace_of_run; exact H).
  specialize (IH s1). destruct (forEach l f s1) as [[r s2] t2].
  rewrite trace_of_run in IH. rewrite trace_of_run, refetches_app, H, IH.
  reflexivity.
Qed.

Lemma announce_quiet n k s : refetches (trace_of (Aannounce n k s)) = 0%nat.
Proof.
  unfold Announcing.announce. destruct (announces n) as [p|]; [|reflexivity].
  unfold dispatch. rewrite read_bind. apply forEach_quiet.
  intros _ s0. rewrite handler_run, trace_of_run.
  destruct (loading s0); [reflexivity|apply refetches_commit].
Qed.

End Announce.

(** ** The loader *)

(** C6, as the code has it: given a promise as [refetching] the loader
    returns that promise and issues no fetch; otherwise it issues one
    cache fetch for the key, with the options
    [{ stale: true, ...contextOptions, ...options }].  Every entry of
    that object is the entry of the options when they carry one,
    otherwise the entry of the context when it carries one; [stale] is
    [true] only when neither carries a [stale] entry, and otherwise is
    what the options say or, when the options are silent, what the
    context says.  Against a cache that calls listeners back while the
    fetch starts, the call is still the loader's only request: what
    the callbacks add to the trace is no request, and they touch at most
    the refetching flag. *)
Theorem C6_loader k r s :
  (forall p, r = RPromise p ->
     loader options contextOptions k r s = (Returns p, s, [])) /\
  ((forall p, r <> RPromise p) ->
     loader options contextOptions k r s
     = (Returns (next s), set_next (S (next s)) s,
        [OpQuery k (spread true contextOptions options) (next s)])) /\
  (forall i,
     spread true contextOptions options !! i =
       match spread_entries options !! i with
       | Some v => Some v
       | None =>
           match spread_entries contextOptions !! i with
           | Some v => Some v
           | None => if decide (i = "stale"%string) then Some (QBool true) else None
           end
       end) /\
  (spread_entries options !! "stale"%string = None ->
   spread_entries contextOptions !! "stale"%string = None ->
   spread true contextOptions options !! "stale"%string = Some (QBool true)) /\
  (forall v, spread_entries options !! "stale"%string = Some v ->
   spread true contextOptions options !! "stale"%string = Some v) /\
  (forall v, spread_entries options !! "stale"%string = None ->
   spread_entries contextOptions !! "stale"%string = Some v ->
   spread true contextOptions options !! "stale"%string = Some v) /\
  (forall announces : nat -> option Promise,
     (forall p, r = RPromise p ->
        Announcing.loader options contextOptions announces k r s
        = (Returns p, s, [])) /\
     ((forall p, r <> RPromise p) ->
        exists s' rest,
          Announcing.loader options contextOptions announces k r s
          = (Returns (next s), s',
             OpQuery k (spread true contextOptions options) (next s) :: rest) /\
          refetches rest = 0%nat /\
          flagOnly (set_next (S (next s)) s) s')).
Proof.
  split; [intros p ->; reflexivity|]. split; [|split; [|split; [|split; [|split]]]].
  - intros Hr. destruct r as [b|p|v]; try reflexivity.
    destruct (Hr p). reflexivity.
  - apply spread_lookup.
  - intros Ho Hc. rewrite spread_lookup, Ho, Hc. reflexivity.
  - intros v Ho. rewrite spread_lookup, Ho. reflexivity.
  - intros v Ho Hc. rewrite spread_lookup, Ho, Hc. reflexivity.
  - intros announces. split; [intros p ->; reflexivity|]. intros Hr.
    assert (Announcing.loader options contextOptions announces k r s
            = Announcing.query options contextOptions announces k
                (spread true contextOptions options) s) as ->
      by (destruct r as [b|p|v]; try reflexivity; destruct (Hr p); reflexivity).
    rewrite query_run. cbv zeta. eexists. eexists. split; [reflexivity|].
    split; [apply announce_quiet | apply announce_flagOnly].
Qed.

(** ** A cache that never calls back

    With the oracle [silent] the instance is the one of the cache
    contract that only records calls: every event gives the same result,
    the same instance and the same trace, so the same instances are
    reachable. *)

Lemma silent_handle e s :
  Announcing.handle options contextOptions hasWindow settle silent e s
  = handle' e s.
Proof. destruct e; reflexivity. Qed.

Lemma silent_created now key :
  Announcing.createTurboResource options contextOptions hasWindow silent now key
  = createTurboResource options contextOptions hasWindow now key.
Proof. reflexivity. Qed.

Lemma silent_reachable s :
  Announcing.reachable options contextOptions hasWindow settle silent s <->
  reachable options contextOptions hasWindow settle s.
Proof.
  split; intros H.
  - induction H as [now key|s e _ IH].
    + rewrite silent_created. constructor.
    + rewrite silent_handle. constructor. exact IH.
  - induction H as [now key|s e _ IH].
    + rewrite <- silent_created. constructor.
    + rewrite <- silent_handle. constructor. exact IH.
Qed.

End Closures.

(** ** The polling signals of [createStale] *)

Lemma stale_nonneg s : staleReachable s -> 0 <= staleIn s.
Proof.
  induction 1 as [expiration now initialKey | expiration now key s _ IH].
  - unfold initialStale.
    destruct (active initialKey) as [k|]; [|simpl; lia].
    destruct (expiration k) as [expiresAt|]; [|simpl; lia].
    simpl. case_bool_decide; lia.
  - unfold staleTick.
    destruct (active key) as [k|]; [|assumption].
    destruct (expiration k) as [expiresAt|]; [|assumption].
    simpl. repeat case_bool_decide; simpl; lia.
Qed.

(** C5, as the code has it.  For an active key whose expiration is [E],
    a tick at time [now] leaves: before [E], [isStale] false and
    [staleIn = E - now]; at [E] itself, [isStale] still false and
    [staleIn = 0]; after [E], [isStale] true and [staleIn = 0].  The
    countdown is never negative. *)
Theorem C5_stale_tick expiration now key k E s :
  staleReachable s ->
  active key = Some k ->
  expiration k = Some E ->
  let s' := fst (staleTick expiration now key s) in
  (now < E -> isStale s' = false /\ staleIn s' = E - now) /\
  (now = E -> isStale s' = false /\ staleIn s' = 0) /\
  (E < now -> isStale s' = true /\ staleIn s' = 0) /\
  0 <= staleIn s'.
Proof.
  intros Hreach Hk HE s'.
  pose proof (stale_nonneg s Hreach) as Hnn.
  subst s'. unfold staleTick. rewrite Hk, HE. simpl.
  split; [|split; [|split]].
  - intros H. repeat case_bool_decide; simpl; (split; [reflexivity || lia | lia]).
  - intros H. repeat case_bool_decide; simpl; (split; [reflexivity || lia | lia]).
  - intros H. repeat case_bool_decide; simpl; (split; [reflexivity || lia | lia]).
  - repeat case_bool_decide; simpl; lia.
Qed.

(** C10.  A tick that finds no key, or a key for which the cache reports
    no expiration, leaves both signals as they were. *)
Theorem C10_stale_tick_frame expiration now key s :
  active key = None \/ (exists k, active key = Some k /\ expiration k = None) ->
  fst (staleTick expiration now key s) = s.
Proof.
  intros [H | (k & Hk & He)]; unfold staleTick.
  - rewrite H. reflexivity.
  - rewrite Hk, He. reflexivity.
Qed.

(** ** The theorems at work on an instance bound to ["A"] *)

(** What creating the instance for ["A"] asks of the cache and of the
    window, in order: the initial load, then the six registrations. *)
Example created_trace :
  trace_of (createTurboResource None None true 0 (Returned (KString "A")))
  = [ OpQuery "A" (spread true None None) 0%nat;
      OpSubscribe "A" mutated 1%nat; OpSubscribe "A" refetching 2%nat;
      OpSubscribe "A" resolved 3%nat; OpSubscribe "A" error 4%nat;
      OpAddEventListener focus 5%nat; OpAddEventListener online 6%nat ].
Proof. vm_compute. reflexivity. Qed.

(** The change of the key from ["A"] to ["B"]: the load for ["B"], the
    six handles of ["A"] in the order of [localUnsubscribe], then the
    registrations for ["B"]. *)
Example key_change_trace :
  trace_of (handle None None true (rejecting 7%nat)
                   (EvKey (Returned (KString "B"))) boundA)
  = [ OpQuery "B" (spread true None None) 7%nat;
      OpUnsubscribe (UnsubCache 1%nat); OpUnsubscribe (UnsubCache 2%nat);
      OpUnsubscribe (UnsubWindow 5%nat); OpUnsubscribe (UnsubWindow 6%nat);
      OpUnsubscribe (UnsubCache 3%nat); OpUnsubscribe (UnsubCache 4%nat);
      OpSubscribe "B" mutated 8%nat; OpSubscribe "B" refetching 9%nat;
      OpSubscribe "B" resolved 10%nat; OpSubscribe "B" error 11%nat;
      OpAddEventListener focus 12%nat; OpAddEventListener online 13%nat ].
Proof. vm_compute. reflexivity. Qed.

(** A key that becomes [false] tears the set down and registers nothing. *)
Example key_lost_trace :
  trace_of (handle None None true (rejecting 7%nat) (EvKey (Returned KFalse)) boundA)
  = [ OpUnsubscribe (UnsubCache 1%nat); OpUnsubscribe (UnsubCache 2%nat);
      OpUnsubscribe (UnsubWindow 5%nat); OpUnsubscribe (UnsubWindow 6%nat);
      OpUnsubscribe (UnsubCache 3%nat); OpUnsubscribe (UnsubCache 4%nat) ]
  /\ live (state_of (handle None None true (rejecting 7%nat)
                            (EvKey (Returned KFalse)) boundA)) = [].
Proof. split; vm_compute; reflexivity. Qed.

(** A focus event 6000 ms after creation is accepted: one fresh fetch,
    handed to the resource cell through [startTransition]. *)
Example focus_accepted_trace :
  trace_of (handle None None true (rejecting 7%nat) (EvFocus 6000 6001) boundA)
  = [ OpQuery "A" (spread false None None) 7%nat;
      OpViaTransition startTransition (CellRefetch 7%nat) ]
  /\ lastFocus (state_of (handle None None true (rejecting 7%nat)
                                 (EvFocus 6000 6001) boundA)) = 6001.
Proof. split; vm_compute; reflexivity. Qed.

Lemma C2_no_key_witness :
  keyMemo (Threw 1%nat) = KNull /\
  trace_of (createTurboResource None None true 0 (Threw 1%nat)) = [] /\
  Forall (fun o => is_cache_op o = false)
         (trace_of (handle None None true (rejecting 7%nat) (EvKey (Threw 1%nat)) boundA)).
Proof.
  assert ((exists e : Err, @Threw TurboSolidKeyType 1%nat = Threw e)
          \/ Threw 1%nat = Returned KFalse \/ Threw 1%nat = Returned KUndefined) as H.
  { left. exists 1%nat. reflexivity. }
  destruct (C2_no_key None None true (rejecting 7%nat) (Threw 1%nat) H)
    as (H1 & _ & _ & _ & _ & H6 & H7 & _).
  split; [apply H1; exists 1%nat; reflexivity|].
  split; [apply H6 | apply H7].
Defined.

(** C2 as stated fails for [false] and [undefined]: the memo keeps them,
    it does not turn them into [null]. *)
Lemma C2_falsy_kept_counterexample :
  keyMemo (Returned KFalse) = KFalse /\ keyMemo (Returned KFalse) <> KNull /\
  keyMemo (Returned KUndefined) = KUndefined /\
  keyMemo (Returned KUndefined) <> KNull.
Proof. repeat split; discriminate. Qed.

Lemma C3_focus_throttle_witness :
  reachable None None true (rejecting 7%nat) boundA /\
  lastFocus boundA = 0 /\
  refetches (trace_of (handleAll None None true (rejecting 7%nat)
                         [EvFocus 6000 6001; EvFocus 12000 12000] boundA)) = 2%nat /\
  (refetches (trace_of (handleAll None None true (rejecting 7%nat)
                          [EvFocus 6000 6001; EvFocus 9000 9000] boundA)) <= 1)%nat.
Proof.
  assert (reachable None None true (rejecting 7%nat) boundA) as Hreach
    by apply reachable_created.
  assert (active (memo boundA) = Some "A"%string) as Hk by reflexivity.
  assert (live boundA <> []) as Hlive by (vm_compute; discriminate).
  assert (refetchOnFocus None None && true = true) as Hf by reflexivity.
  destruct (C3_focus_throttle None None true (rejecting 7%nat) boundA "A"
              Hreach Hk Hlive Hf) as (_ & _ & _ & Hnear & Hfar).
  split; [exact Hreach|]. split; [reflexivity|]. split.
  - apply Hfar; vm_compute; reflexivity.
  - apply Hnear; vm_compute; discriminate.
Defined.

(** C3 as stated fails while no focus event has been accepted yet: the
    timestamp is the time of creation, so a first focus event 1000 ms
    after creation is dropped, and of two events 5500 ms apart (more than
    the interval of 5000 ms) only the second makes a refetch. *)
Lemma C3_first_focus_counterexample :
  focusInterval None None = 5000 /\
  handle None None true (rejecting 7%nat) (EvFocus 1000 1000) boundA
  = (Returns tt, boundA, []) /\
  refetches (trace_of (handleAll None None true (rejecting 7%nat)
                         [EvFocus 1000 1000; EvFocus 6500 6500] boundA)) = 1%nat.
Proof. repeat split; vm_compute; reflexivity. Qed.

Lemma C5_stale_tick_witness :
  let s := fst (staleTick (fun _ => Some 1000) 500 (KString "A")
                  (fst (initialStale (fun _ => Some 1000) 0 (KString "A")))) in
  isStale s = false /\ staleIn s = 500.
Proof.
  assert (1000 - 500 = 500) as <- by reflexivity.
  apply (C5_stale_tick (fun _ => Some 1000) 500 (KString "A") "A" 1000).
  - apply stale_created.
  - reflexivity.
  - reflexivity.
  - lia.
Defined.

(** C5 as stated fails at the expiration time itself: a tick at
    [now = E = 1000] leaves [isStale] false, since the code compares
    [expiresAt < now]. *)
Lemma C5_at_expiration_counterexample :
  let s := fst (staleTick (fun _ => Some 1000) 1000 (KString "A")
                  (fst (initialStale (fun _ => Some 1000) 0 (KString "A")))) in
  isStale s = false /\ isStale s <> true /\ staleIn s = 0.
Proof. repeat split. discriminate. Qed.

Lemma C6_loader_witness :
  loader None None "A" (RPromise 5%nat) boundA = (Returns 5%nat, boundA, []) /\
  loader None None "A" (RBoolean false) boundA
  = (Returns (next boundA), set_next (S (next boundA)) boundA,
     [OpQuery "A" (spread true None None) (next boundA)]) /\
  spread true None None !! "stale"%string = Some (QBool true) /\
  spread true (onlyStale false) None !! "stale"%string = Some (QBool false) /\
  (exists s' rest,
     Announcing.loader None None eager "A" (RBoolean false) boundA
     = (Returns (next boundA), s',
        OpQuery "A" (spread true None None) (next boundA) :: rest) /\
     refetches rest = 0%nat /\
     flagOnly (set_next (S (next boundA)) boundA) s').
Proof.
  destruct (C6_loader None None "A" (RPromise 5%nat) boundA) as (Hp & _ & _ & Hst & _).
  destruct (C6_loader None None "A" (RBoolean false) boundA)
    as (_ & Hq & _ & _ & _ & _ & Hany).
  destruct (C6_loader None (onlyStale false) "A" (RBoolean false) boundA)
    as (_ & _ & _ & _ & _ & Hctx & _).
  split; [exact (Hp 5%nat eq_refl)|]. split; [|split; [|split]].
  - apply Hq. intros p. discriminate.
  - apply Hst; reflexivity.
  - apply Hctx; vm_compute; reflexivity.
  - apply (proj2 (Hany eager)). intros p. discriminate.
Defined.

(** C6 as stated fails when the options carry [stale: false]: the entry
    comes after the default in the object given to [query], so the fetch
    the loader issues asks for [stale: false]; the object is the very one
    [refetch()] gives the cache for its fresh fetch when no option is
    set. *)
Lemma C6_stale_override_counterexample :
  trace_of (loader (onlyStale false) None "A" (RBoolean false) boundA)
  = [OpQuery "A" (spread true None (onlyStale false)) (next boundA)] /\
  spread true None (onlyStale false) !! "stale"%string = Some (QBool false) /\
  spread true None (onlyStale false) !! "stale"%string <> Some (QBool true) /\
  spread true None (onlyStale false) = spread false None None.
Proof.
  split; [vm_compute; reflexivity|]. split; [vm_compute; reflexivity|].
  split; [vm_compute; discriminate|]. vm_compute. reflexivity.
Qed.

Lemma C7_teardown_before_setup_witness :
  reachable None None true (rejecting 7%nat) boundA /\
  oneSet None None true boundA /\
  oneSet None None true
    (state_of (handle None None true (rejecting 7%nat)
                      (EvKey (Returned (KString "B"))) boundA)) /\
  (forall l, l ∈ live boundA ->
     l ∉ live (state_of (handle None None true (rejecting 7%nat)
                                (EvKey (Returned (KString "B"))) boundA))).
Proof.
  assert (reachable None None true (rejecting 7%nat) boundA) as Hreach
    by apply reachable_created.
  destruct (C7_teardown_before_setup None None true (rejecting 7%nat) boundA Hreach)
    as (Hone & _ & Hchange).
  assert (keyMemo (Returned (KString "B")) <> memo boundA) as Hne
    by (vm_compute; discriminate).
  destruct (Hchange (Returned (KString "B")) Hne) as (Hone' & Hgone & _).
  split; [exact Hreach|]. split; [exact Hone|]. split; [exact Hone' | exact Hgone].
Defined.

Lemma C8_no_key_actions_witness :
  let s := state_of (createTurboResource None None true 0
                                         (Threw 1%nat)) in
  is_string (memo s) = false /\
  localMutate 4%nat s = (Returns tt, s, []) /\
  localRefetch None None (rejecting 7%nat) s = (Returns (Fulfilled None), s, []) /\
  localForget s = (Returns tt, s, []) /\
  localAbort None s = (Returns tt, s, []).
Proof.
  intros s. split; [reflexivity|].
  apply (C8_no_key_actions None None (rejecting 7%nat) s 4%nat None). reflexivity.
Defined.

Lemma C9_refetch_rejection_witness :
  result_of (localRefetch None None (rejecting 7%nat) boundA)
  = Returns (Rejected 7%nat).
Proof.
  rewrite (C9_refetch_rejection None None (rejecting 7%nat) boundA "A" 7%nat).
  - reflexivity.
  - reflexivity.
  - reflexivity.
Defined.

Lemma C10_stale_tick_frame_witness :
  fst (staleTick (fun _ => None) 500 (KString "A") (mkStale false 300))
  = mkStale false 300 /\
  fst (staleTick (fun _ => Some 1000) 500 KNull (mkStale false 300))
  = mkStale false 300.
Proof.
  split.
  - apply C10_stale_tick_frame. right. exists "A"%string. split; reflexivity.
  - apply C10_stale_tick_frame. left. reflexivity.
Defined.

(** ** More on the signals of [createStale] *)

(** In every state the signals of [createStale] can be in, the countdown
    is not negative, and a key reported stale has no time left. *)
Theorem stale_signals_consistent s :
  staleReachable s ->
  0 <= staleIn s /\ (isStale s = true -> staleIn s = 0).
Proof.
  induction 1 as [expiration now initialKey | expiration now key s _ [IH1 IH2]].
  - unfold initialStale.
    destruct (active initialKey) as [k|]; [|split; [simpl; lia | reflexivity]].
    destruct (expiration k) as [expiresAt|]; [|split; [simpl; lia | reflexivity]].
    simpl. repeat case_bool_decide; (split; [lia|]); intros;
      try reflexivity; try discriminate; lia.
  - unfold staleTick.
    destruct (active key) as [k|]; [|split; assumption].
    destruct (expiration k) as [expiresAt|]; [|split; assumption].
    simpl. repeat case_bool_decide; simpl; (split; [lia|]); intros;
      try reflexivity; try discriminate; lia.
Qed.

(** A tick that finds an expiration [E] for the active key recomputes
    the signals from scratch: it leaves what the initial snapshot taken
    at that moment would be, [isStale] exactly when [E < now] and
    [staleIn = max 0 (E - now)], after one question to the cache. *)
Theorem stale_tick_recomputes expiration now key k E s :
  staleReachable s ->
  active key = Some k ->
  expiration k = Some E ->
  staleTick expiration now key s = initialStale expiration now key /\
  staleTick expiration now key s
  = (mkStale (bool_decide (E < now)) (Z.max 0 (E - now)), [OpExpiration k]).
Proof.
  intros Hreach Hk HE. pose proof (stale_nonneg s Hreach) as Hnn.
  unfold staleTick, initialStale. rewrite Hk, HE. cbv zeta.
  unfold setIsStale, setStaleIn.
  split; f_equal; repeat case_bool_decide; simpl; f_equal; lia.
Qed.

(** ** The further properties at work *)

Lemma boundA_reachable : reachable None None true (rejecting 7%nat) boundA.
Proof. apply reachable_created. Qed.

Lemma boundA_live : live boundA <> [].
Proof. vm_compute. discriminate. Qed.

Lemma boundA_active : active (memo boundA) = Some "A"%string.
Proof. vm_compute. reflexivity. Qed.

Lemma loadingA_reachable :
  reachable None None true (rejecting 7%nat)
            (state_of (handle None None true (rejecting 7%nat)
                              (EvLoading true) boundA)).
Proof. apply reachable_step. exact boundA_reachable. Qed.

Lemma loadingA_facts :
  let s := state_of (handle None None true (rejecting 7%nat)
                            (EvLoading true) boundA) in
  active (memo s) = Some "A"%string /\ live s <> [] /\ loading s = true.
Proof. repeat split; vm_compute; (reflexivity || discriminate). Qed.

Lemma unsubscribe_detaches_witness :
  live detachedA = [] /\
  handle None None true (rejecting 7%nat) (EvCache "A" DResolved) detachedA
  = (Returns tt, detachedA, []) /\
  handle None None true (rejecting 7%nat) (EvFocus 9000 9000) detachedA
  = (Returns tt, detachedA, []).
Proof.
  destruct (unsubscribe_detaches None None true (rejecting 7%nat) boundA
              boundA_reachable) as (Hl & _ & _ & Hc & Hf & _).
  split; [exact Hl|]. split; [exact (Hc "A"%string DResolved) | exact (Hf 9000 9000)].
Defined.

Lemma unsubscribe_idempotent_witness :
  state_of (handle None None true (rejecting 7%nat) EvUnsubscribe detachedA)
  = detachedA.
Proof.
  exact (proj1 (proj2 (unsubscribe_idempotent None None true (rejecting 7%nat)
                         boundA boundA_reachable))).
Defined.

Lemma key_change_registers_witness :
  live (state_of (handle None None true (rejecting 7%nat)
                         (EvKey (Returned (KString "B"))) detachedA))
  = subscriptionSet None None true "B" (S (next detachedA)) /\
  live (state_of (handle None None true (rejecting 7%nat)
                         (EvKey (Returned KNull)) boundA)) = [].
Proof.
  assert (reachable None None true (rejecting 7%nat) detachedA) as Hd
    by (apply reachable_step; exact boundA_reachable).
  assert (keyMemo (Returned (KString "B")) <> memo detachedA) as HneB
    by (vm_compute; discriminate).
  assert (keyMemo (Returned KNull) <> memo boundA) as HneN
    by (vm_compute; discriminate).
  destruct (key_change_registers None None true (rejecting 7%nat) detachedA
              (Returned (KString "B")) Hd HneB) as [HB _].
  destruct (key_change_registers None None true (rejecting 7%nat) boundA
              (Returned KNull) boundA_reachable HneN) as [_ HN].
  split.
  - exact (proj1 (HB "B"%string eq_refl)).
  - exact (proj1 (HN eq_refl)).
Defined.

Lemma disabled_trigger_never_refetches_witness :
  handle quietOptions None true (rejecting 7%nat) (EvFocus 9000 9000) quietA
  = (Returns tt, quietA, []) /\
  handle quietOptions None true (rejecting 7%nat) EvOnline quietA
  = (Returns tt, quietA, []).
Proof.
  destruct (disabled_trigger_never_refetches quietOptions None true
              (rejecting 7%nat) quietA
              (reachable_created quietOptions None true (rejecting 7%nat) 0
                                 (Returned (KString "A")))) as [Hf Hc].
  split; [exact (Hf eq_refl 9000 9000) | exact (Hc eq_refl)].
Defined.

Lemma mutated_is_committed_witness :
  handle None None true (rejecting 7%nat) (EvCache "A" (DMutated 4%nat)) boundA
  = (Returns tt, boundA, [commitOp None None (CellMutate 4%nat)]).
Proof.
  exact (proj1 (mutated_is_committed None None true (rejecting 7%nat) boundA "A"
                  4%nat boundA_reachable boundA_active boundA_live)).
Defined.

Lemma refetching_event_no_second_fetch_witness :
  trace_of (handle None None true (rejecting 7%nat)
                   (EvCache "A" (DRefetching 3%nat)) boundA)
  = [commitOp None None (CellRefetch 3%nat)] /\
  trace_of (handle None None true (rejecting 7%nat)
                   (EvCache "A" (DRefetching 3%nat))
                   (state_of (handle None None true (rejecting 7%nat)
                                     (EvLoading true) boundA)))
  = [].
Proof.
  destruct (refetching_event_no_second_fetch None None true (rejecting 7%nat)
              boundA "A" 3%nat boundA_reachable boundA_active boundA_live)
    as (_ & _ & Hidle & _).
  destruct loadingA_facts as (Hk & Hl & Hb).
  destruct (refetching_event_no_second_fetch None None true (rejecting 7%nat)
              _ "A" 3%nat loadingA_reachable Hk Hl)
    as (_ & Hbusy & _).
  split; [apply Hidle; vm_compute; reflexivity | exact (Hbusy Hb)].
Defined.

Lemma actions_follow_the_key_witness :
  let s := state_of (handle None None true (rejecting 7%nat)
                            (EvKey (Returned (KString "B"))) boundA) in
  handle None None true (rejecting 7%nat) (EvMutate 4%nat) s
  = (Returns tt, s, [OpMutate "B" 4%nat]).
Proof.
  exact (proj1 (actions_follow_the_key None None true (rejecting 7%nat) boundA
                  (Returned (KString "B")) "B" 4%nat None eq_refl)).
Defined.

Lemma expiration_and_snapshot_witness :
  localExpiration (fun _ => Some 1000) boundA
  = (Returns (Some 1000), boundA, [OpExpiration "A"]) /\
  fst (initialStale (fun _ => Some 1000) 400 (memo boundA)) = mkStale false 600.
Proof.
  destruct (expiration_and_snapshot (fun _ => Some 1000) 400 boundA)
    as (_ & Hrel & _ & Hsnap).
  split.
  - exact (Hrel "A"%string boundA_active).
  - assert (result_of (localExpiration (fun _ => Some 1000) boundA)
            = Returns (Some 1000)) as Hres by (vm_compute; reflexivity).
    exact (Hsnap 1000 Hres).
Defined.

Lemma empty_string_key_witness :
  let s := state_of (createTurboResource None None true 0
                                         (Returned (KString EmptyString))) in
  localMutate 4%nat s = (Returns tt, s, []) /\
  localRefetch None None (rejecting 7%nat) s = (Returns (Fulfilled None), s, []).
Proof.
  intros s.
  destruct (empty_string_key None None true (rejecting 7%nat) 0
              (fun _ => None) 4%nat None) as (_ & _ & _ & H).
  destruct (H s eq_refl) as (Hm & Hr & _).
  split; [exact Hm | exact Hr].
Defined.

Lemma focus_available_tick_witness :
  focusAvailableTick None None 2000 boundA (initialFocusAvailable None None 0 boundA)
  = mkFocus false 3000 /\
  handle None None true (rejecting 7%nat) (EvFocus 2000 2000) boundA
  = (Returns tt, boundA, []).
Proof.
  destruct (focus_available_tick None None true (rejecting 7%nat)
              (initialFocusAvailable None None 0 boundA) 2000 2000 boundA)
    as (Hval & _ & Hagree).
  - vm_compute. discriminate.
  - apply focus_created.
  - split; [exact Hval|].
    destruct (Hagree boundA_reachable boundA_live eq_refl) as [_ Hdrop].
    apply Hdrop. rewrite Hval. reflexivity.
Defined.

Lemma stale_signals_consistent_witness :
  let s := fst (staleTick (fun _ => Some 1000) 1500 (KString "A")
                  (fst (initialStale (fun _ => Some 1000) 0 (KString "A")))) in
  isStale s = true /\ staleIn s = 0.
Proof.
  intros s. split; [reflexivity|].
  apply stale_signals_consistent; [|reflexivity].
  apply stale_ticked. apply stale_created.
Defined.

Lemma stale_tick_recomputes_witness :
  staleTick (fun _ => Some 1000) 400 (KString "A") (mkStale true 0)
  = (mkStale false 600, [OpExpiration "A"]).
Proof.
  exact (proj2 (stale_tick_recomputes (fun _ => Some 1000) 400 (KString "A") "A"
                  1000 (mkStale true 0)
                  (stale_created (fun _ => None) 0 KNull) eq_refl eq_refl)).
Defined.

(** ** The refetching flag and the refetches against a cache that calls back *)

Lemma eagerA_reachable :
  Announcing.reachable None None true (rejecting 7%nat) eager eagerA.
Proof. apply Announcing.reachable_created. Qed.

Lemma eagerDetachedA_reachable :
  Announcing.reachable None None true (rejecting 7%nat) eager eagerDetachedA.
Proof. apply Announcing.reachable_step. exact eagerA_reachable. Qed.

Lemma eagerA_live : live eagerA <> [].
Proof. vm_compute. discriminate. Qed.

Lemma eagerA_active : active (memo eagerA) = Some "A"%string.
Proof. vm_compute. reflexivity. Qed.

Lemma eagerA_other : keyMemo (Returned (KString "B")) <> memo eagerA.
Proof. vm_compute. discriminate. Qed.

Lemma eagerDetachedA_live : live eagerDetachedA = [].
Proof. vm_compute. reflexivity. Qed.

Lemma eagerDetachedA_flag : isRefetching eagerDetachedA = true.
Proof. vm_compute. reflexivity. Qed.

Lemma C4_isRefetching_lifecycle_witness :
  Announcing.reachable None None true (rejecting 7%nat) eager eagerA /\
  isRefetching eagerA = true /\
  isRefetching
    (state_of (Announcing.handle None None true (rejecting 7%nat) eager
                 (EvKey (Returned (KString "B"))) eagerA)) = true /\
  isRefetching
    (state_of (Announcing.handle None None true (rejecting 7%nat) eager
                 (EvKey (Returned KNull)) eagerA)) = false /\
  isRefetching
    (state_of (Announcing.handle None None true (rejecting 7%nat) eager
                 (EvCache "A" DResolved) eagerA)) = false /\
  isRefetching
    (state_of (Announcing.handle None None true (rejecting 7%nat) eager
                 (EvCache "A" DResolved) eagerDetachedA)) = true.
Proof.
  destruct (C4_isRefetching_lifecycle None None true (rejecting 7%nat) eager
              eagerA eagerA_reachable) as (Hc & Hkey & Hev & _ & _).
  destruct (C4_isRefetching_lifecycle None None true (rejecting 7%nat) eager
              eagerDetachedA eagerDetachedA_reachable) as (_ & _ & _ & _ & Hdet).
  split; [exact eagerA_reachable|]. split; [|split; [|split; [|split]]].
  - exact (Hc 0 (Returned (KString "A"))).
  - destruct (Hkey (Returned (KString "B")) eagerA_other) as [_ Hb].
    exact (proj2 (Hb "B"%string eq_refl)).
  - assert (keyMemo (Returned KNull) <> memo eagerA) as Hne
      by (vm_compute; discriminate).
    destruct (Hkey (Returned KNull) Hne) as [Hn _]. exact (Hn eq_refl).
  - destruct (Hev "A"%string eagerA_active eagerA_live) as (_ & _ & Hr & _).
    exact Hr.
  - destruct (Hdet eagerDetachedA_live) as [Hd _].
    rewrite (Hd "A"%string DResolved). exact eagerDetachedA_flag.
Defined.

(** C4 as stated fails.  Against a cache that hands a fetch in flight to
    a new 'refetching' listener, as turbo-query does with the fetch the
    key change itself has just started, the flag is set right after the
    creation and right after a change of the key.  And once
    [unsubscribe()] was called, a 'resolved' event of the key no longer
    clears a flag that was set. *)
Lemma C4_isRefetching_lifecycle_counterexample :
  isRefetching eagerA = true /\
  (let r := Announcing.handle None None true (rejecting 7%nat) eager
              (EvKey (Returned (KString "B"))) eagerA in
   memo (state_of r) = KString "B" /\ isRefetching (state_of r) = true) /\
  (let s1 := state_of (handle None None true (rejecting 7%nat)
                         (EvCache "A" (DRefetching 9%nat)) boundA) in
   let s2 := state_of (handle None None true (rejecting 7%nat) EvUnsubscribe s1) in
   let s3 := state_of (handle None None true (rejecting 7%nat)
                         (EvCache "A" DResolved) s2) in
   isRefetching boundA = false /\ isRefetching s1 = true /\
   memo s3 = KString "A" /\ isRefetching s3 = true).
Proof. vm_compute. repeat split. Qed.

Lemma online_always_refetches_witness :
  let r := Announcing.handleAll None None true (rejecting 7%nat) eager
             (replicate 3 EvOnline) eagerA in
  result_of r = Returns tt /\ refetches (trace_of r) = 3%nat /\
  lastFocus (state_of r) = lastFocus eagerA.
Proof.
  destruct (online_always_refetches None None true (rejecting 7%nat) eager
              eagerA "A"%string 3%nat eagerA_reachable eagerA_live
              eagerA_active eq_refl) as (_ & Hr & Hn & Hl & _).
  split; [exact Hr|]. split; [exact Hn|exact Hl].
Defined.

Lemma refetch_fetches_once_witness :
  let r := Announcing.localRefetch None None (rejecting 7%nat) eager eagerA in
  result_of r = Returns (Rejected 7%nat) /\
  refetches (trace_of r
             ++ trace_of (Announcing.loader None None eager "A"
                            (RPromise (next eagerA)) (state_of r))) = 1%nat.
Proof.
  destruct (refetch_fetches_once None None true (rejecting 7%nat) eager
              eagerA "A"%string eagerA_reachable eagerA_active)
    as (Hr & _ & _ & Hn & _).
  split; [exact Hr|exact Hn].
Defined.

Lemma refetch_request_options_witness :
  spread false None (onlyStale true) = spread true None (onlyStale true) /\
  Announcing.loader (onlyStale true) None eager "A" (RBoolean false) eagerA
  = Announcing.query (onlyStale true) None eager "A"
      (spread false None (onlyStale true)) eagerA.
Proof.
  destruct (refetch_request_options (onlyStale true) None (rejecting 7%nat)
              eager eagerA "A"%string eagerA_active) as (_ & _ & Hs).
  assert (is_Some (spread_entries (onlyStale true) !! "stale"%string)) as Hsome
    by (exists (QBool true); vm_compute; reflexivity).
  destruct (Hs (or_introl Hsome)) as [Heq Hload].
  split; [exact Heq|]. apply Hload. intros p. discriminate.
Defined.
